(** * thread_extra: thread sets and the scope-bound thread manager

    A shallow embedding of [thread_extra.py].  Python objects live in an
    explicit store; every method is a function from the store to an outcome
    and a new store.  The [threading.Thread] class the module builds on is
    modelled by its life cycle (not started, running, finished); what the
    rest of the system does while a method runs (worker threads reaching the
    end of their work, a wait that is or is not satisfied in time) is read
    from a schedule carried by the store, so that every statement below
    holds for every such schedule.

    Conventions.  The module defines no subclass of [ThreadSet], so
    [self.__class__] is [ThreadSet] itself.  The code that calls a method is
    not one of the worker threads of the store.  Sets are [gset]s of thread
    identities; the order in which a set is walked is the order of
    [elements], about which nothing is assumed beyond its being a listing
    without repetition. *)

From Stdlib Require Import QArith.
From stdpp Require Import gmap strings list fin_maps.

Set Warnings "-register-all,-clear-no-such-hyp".

Local Open Scope positive_scope.
Local Open Scope nat_scope.
Local Open Scope string_scope.
Local Open Scope list_scope.

(** ** Values, exceptions and outcomes *)

(** Object identities.  Thread objects and the other objects of the module
    are kept in separate tables, so a thread never aliases a set. *)
Abbreviation tid := positive (only parsing).
Abbreviation ref := positive (only parsing).

(** [float | None]: the timeout is only ever handed on to [Thread.join]. *)
Abbreviation timeout := (option Q) (only parsing).

Inductive exn : Type :=
  | TypeError
  | RuntimeError
  | AssertionError
  | AttributeError
  | StopIteration.

Inductive pyval : Type :=
  | VNone
  | VBool (b : bool)
  | VInt (n : Z)
  | VStr (s : string)
  | VFunc (name : string)
  | VTuple (items : list pyval)
  | VDict (items : list (string * pyval))
  | VThread (t : tid)
  | VThreadSet (s : ref)
  | VManager (m : ref)
  | VGen (g : ref)
  | VExcType (e : exn)
  | VExc (e : exn)
  | VTraceback.

(** Truth value of an object, as tested by [if]. *)
Definition truthy (v : pyval) : bool :=
  match v with
  | VNone => false
  | VBool b => b
  | VInt n => negb (Z.eqb n 0)
  | VStr s => negb (String.eqb s "")
  | VTuple items => negb (Nat.eqb (length items) 0)
  | VDict items => negb (Nat.eqb (length items) 0)
  | _ => true
  end.

(** A call returns a value, raises, or blocks for ever. *)
Inductive res (A : Type) : Type :=
  | Ret (a : A)
  | Raise (e : exn)
  | Hang.
Arguments Ret {A} a.
Arguments Raise {A} e.
Arguments Hang {A}.

(** ** The store *)

Inductive run_state : Type := NotStarted | Running | Finished.

Record thread_obj : Type := {
  th_target : pyval;
  th_args : pyval;
  th_kwargs : pyval;
  th_state : run_state
}.

(** Calls made on thread objects, with what the caller observed. *)
Inductive event : Type :=
  | EStart (t : tid) (ok : bool)
  | EIsAlive (t : tid) (alive : bool)
  | EJoin (t : tid) (tmo : timeout) (r : res bool).

(** One step of the rest of the system: the workers whose work item has
    returned since the previous call, and whether a worker that is being
    waited for comes to its end during the wait. *)
Record env_choice : Type := {
  ec_done : list tid;
  ec_wait : bool
}.

(** The registry object of a [ThreadManager]. *)
Record manager : Type := {
  _join_timeout : timeout;
  _threads : list tid
}.

(** The generator object made by [ThreadSet.is_alive]: the set it walks, the
    size of that set when the walk was set up, the members still to visit
    and whether the generator is finished. *)
Record generator : Type := {
  g_set : ref;
  g_used : nat;
  g_rest : list tid;
  g_finished : bool
}.

Record world : Type := {
  w_threads : gmap tid thread_obj;
  w_sets : gmap ref (gset tid);
  w_mgrs : gmap ref manager;
  w_gens : gmap ref generator;
  w_trace : list event;
  w_env : list env_choice
}.

Definition empty_world : world :=
  {| w_threads := ∅; w_sets := ∅; w_mgrs := ∅; w_gens := ∅;
     w_trace := []; w_env := [] |}.

Definition set_threads (ths : gmap tid thread_obj) (w : world) : world :=
  {| w_threads := ths; w_sets := w_sets w; w_mgrs := w_mgrs w;
     w_gens := w_gens w; w_trace := w_trace w; w_env := w_env w |}.

Definition set_sets (ss : gmap ref (gset tid)) (w : world) : world :=
  {| w_threads := w_threads w; w_sets := ss; w_mgrs := w_mgrs w;
     w_gens := w_gens w; w_trace := w_trace w; w_env := w_env w |}.

Definition set_mgrs (ms : gmap ref manager) (w : world) : world :=
  {| w_threads := w_threads w; w_sets := w_sets w; w_mgrs := ms;
     w_gens := w_gens w; w_trace := w_trace w; w_env := w_env w |}.

Definition set_gens (gs : gmap ref generator) (w : world) : world :=
  {| w_threads := w_threads w; w_sets := w_sets w; w_mgrs := w_mgrs w;
     w_gens := gs; w_trace := w_trace w; w_env := w_env w |}.

Definition set_env (e : list env_choice) (w : world) : world :=
  {| w_threads := w_threads w; w_sets := w_sets w; w_mgrs := w_mgrs w;
     w_gens := w_gens w; w_trace := w_trace w; w_env := e |}.

Definition log (e : event) (w : world) : world :=
  {| w_threads := w_threads w; w_sets := w_sets w; w_mgrs := w_mgrs w;
     w_gens := w_gens w; w_trace := w_trace w ++ [e]; w_env := w_env w |}.

(** ** The monad of method calls *)

Definition M (A : Type) : Type := world -> res A * world.

Definition ret {A} (a : A) : M A := fun w => (Ret a, w).
Definition raise {A} (e : exn) : M A := fun w => (Raise e, w).

Definition bind {A B} (c : M A) (k : A -> M B) : M B :=
  fun w =>
    match c w with
    | (Ret a, w1) => k a w1
    | (Raise e, w1) => (Raise e, w1)
    | (Hang, w1) => (Hang, w1)
    end.

Notation "'let!' x ':=' c 'in' k" := (bind c (fun x => k))
  (at level 10, x name, c at level 100, k at level 200, only parsing).
Notation "c ';;;' k" := (bind c (fun _ => k))
  (at level 100, k at level 200, right associativity, only parsing).

(** [for t in l: body(t)]; the statement itself evaluates to nothing. *)
Fixpoint for_each (body : tid -> M pyval) (l : list tid) : M pyval :=
  match l with
  | [] => ret VNone
  | t :: l' => body t ;;; for_each body l'
  end.

(** ** [threading.Thread] *)

(** The thread class is the one of the standard library, not a part of the
    module; its operations follow the worker handle of the description,
    with the exceptions Python raises. *)

Module Thread.

Definition set_state (s : run_state) (o : thread_obj) : thread_obj :=
  {| th_target := th_target o; th_args := th_args o;
     th_kwargs := th_kwargs o; th_state := s |}.

(** The work item of a running thread returns. *)
Definition finish (o : thread_obj) : thread_obj :=
  match th_state o with
  | Running => set_state Finished o
  | _ => o
  end.

Definition finish_all (done : list tid) (ths : gmap tid thread_obj)
  : gmap tid thread_obj :=
  foldr (fun t m => alter finish t m) ths done.

(** The rest of the system takes its next step; the answer says whether a
    wait that starts now is satisfied.  Once the schedule is used up
    nothing else happens and waits are satisfied. *)
Definition tick : M bool := fun w =>
  match w_env w with
  | [] => (Ret true, w)
  | c :: cs =>
      (Ret (ec_wait c),
       set_env cs (set_threads (finish_all (ec_done c) (w_threads w)) w))
  end.

Definition state (t : tid) (w : world) : option run_state :=
  th_state <$> w_threads w !! t.

Definition put_state (t : tid) (s : run_state) (w : world) : world :=
  set_threads (alter (set_state s) t (w_threads w)) w.

(** Parameters of [Thread.__init__]: those that may be given by position,
    in order, and the keyword-only one. *)
Definition positional : list string :=
  ["group"; "target"; "name"; "args"; "kwargs"].
Definition keyword_only : list string := ["daemon"].

Fixpoint assoc (k : string) (l : list (string * pyval)) : option pyval :=
  match l with
  | [] => None
  | (k', v) :: l' => if String.eqb k' k then Some v else assoc k l'
  end.

Fixpoint bind_keywords (bound : list (string * pyval))
    (kw : list (string * pyval)) : option (list (string * pyval)) :=
  match kw with
  | [] => Some bound
  | (k, v) :: kw' =>
      if bool_decide (k ∈ positional ++ keyword_only)
      then match assoc k bound with
           | Some _ => None
           | None => bind_keywords (bound ++ [(k, v)]) kw'
           end
      else None
  end.

(** Binding of the positional and keyword arguments of a call of the
    [Thread] class. *)
Definition bind_args (args : list pyval) (kw : list (string * pyval))
  : option (list (string * pyval)) :=
  if decide (length args <= length positional)
  then bind_keywords (zip (take (length args) positional) args) kw
  else None.

(** Modelled from the spec: creating a worker handle gives a new handle in
    the not-started state and has no other effect; the handle class,
    [threading.Thread], is not part of the module.  A call that does not
    fit the signature of the class is a [TypeError]; a [group] other than
    [None] fails the assertion of [Thread.__init__]. *)
Definition construct (args : list pyval) (kw : list (string * pyval))
  : M tid := fun w =>
  match bind_args args kw with
  | None => (Raise TypeError, w)
  | Some b =>
      match default VNone (assoc "group" b) with
      | VNone =>
          let t := fresh (dom (w_threads w)) in
          let o := {| th_target := default VNone (assoc "target" b);
                      th_args := default (VTuple []) (assoc "args" b);
                      th_kwargs :=
                        match default VNone (assoc "kwargs" b) with
                        | VNone => VDict []
                        | d => d
                        end;
                      th_state := NotStarted |} in
          (Ret t, set_threads (<[t := o]> (w_threads w)) w)
      | _ => (Raise AssertionError, w)
      end
  end.

(** Modelled from the spec: [start()] of the worker handle takes it from
    not-started to running and fails on a handle that was started before
    ([RuntimeError] in Python); the handle class is not part of the
    module. *)
Definition start (t : tid) : M pyval :=
  let! _ := tick in
  fun w =>
    match state t w with
    | None => (Raise AttributeError, w)
    | Some NotStarted => (Ret VNone, log (EStart t true) (put_state t Running w))
    | Some _ => (Raise RuntimeError, log (EStart t false) w)
    end.

(** Modelled from the spec: [is_alive()] of the worker handle is a
    snapshot, taken when the call is made, of whether the handle is
    running; the handle class is not part of the module. *)
Definition is_alive (t : tid) : M pyval :=
  let! _ := tick in
  fun w =>
    match state t w with
    | None => (Raise AttributeError, w)
    | Some s =>
        let b := match s with Running => true | _ => false end in
        (Ret (VBool b), log (EIsAlive t b) w)
    end.

(** Modelled from the spec: the worker handle's [join(timeout)] blocks
    until the handle is finished or the timeout has elapsed and returns
    whether the handle finished ([True]) or the timeout expired first
    ([False]); the class itself, [threading.Thread], is not part of the
    module.  Joining a thread that was never started is an error of the
    caller; a wait without timeout for a thread that never finishes does
    not return. *)
Definition join (tmo : timeout) (t : tid) : M pyval :=
  let! done := tick in
  fun w =>
    match state t w with
    | None => (Raise AttributeError, w)
    | Some NotStarted =>
        (Raise RuntimeError, log (EJoin t tmo (Raise RuntimeError)) w)
    | Some Finished => (Ret (VBool true), log (EJoin t tmo (Ret true)) w)
    | Some Running =>
        if done
        then (Ret (VBool true),
              log (EJoin t tmo (Ret true)) (put_state t Finished w))
        else match tmo with
             | Some _ => (Ret (VBool false), log (EJoin t tmo (Ret false)) w)
             | None => (Hang, log (EJoin t tmo Hang) w)
             end
    end.

End Thread.

(** ** [class ThreadSet] *)

Module ThreadSet.

(** Read of the attribute [self._threads]. *)
Definition attr_threads (self : ref) : M (gset tid) := fun w =>
  match w_sets w !! self with
  | Some X => (Ret X, w)
  | None => (Raise AttributeError, w)
  end.

(** [self._threads = set(threads)] *)
Definition __init__ (self : ref) (threads : list tid) : M pyval := fun w =>
  (Ret VNone, set_sets (<[self := list_to_set threads]> (w_sets w)) w).

(** The call [ThreadSet(threads)]: a new object, initialised. *)
Definition new (threads : list tid) : M pyval := fun w =>
  let self := fresh (dom (w_sets w)) in
  (__init__ self threads ;;; ret (VThreadSet self)) w.

Definition start (self : ref) : M pyval :=
  let! X := attr_threads self in
  for_each Thread.start (elements X).

Definition join (self : ref) (tmo : timeout) : M pyval :=
  let! X := attr_threads self in
  for_each (Thread.join tmo) (elements X).

Definition start_and_join (self : ref) (join_timeout : timeout) : M pyval :=
  start self ;;; join self join_timeout ;;; ret VNone.

(** The generator expression: the set is looked up and its iterator is
    set up when the expression is evaluated; no member is asked anything
    yet. *)
Definition is_alive (self : ref) : M pyval :=
  let! X := attr_threads self in
  fun w =>
    let g := fresh (dom (w_gens w)) in
    let G := {| g_set := self; g_used := size X;
                g_rest := elements X; g_finished := false |} in
    (Ret (VGen g), set_gens (<[g := G]> (w_gens w)) w).

Definition __or__ (self : ref) (other : pyval) : M pyval :=
  match other with
  | VThreadSet o =>
      let! X := attr_threads self in
      let! Y := attr_threads o in
      new (elements (X ∪ Y))
  | _ => raise TypeError
  end.

Definition __ior__ (self : ref) (other : pyval) : M pyval :=
  match other with
  | VThreadSet o =>
      let! X := attr_threads self in
      let! Y := attr_threads o in
      fun w => (Ret (VThreadSet self),
                set_sets (<[self := X ∪ Y]> (w_sets w)) w)
  | _ => raise TypeError
  end.

Definition __len__ (self : ref) : M pyval :=
  let! X := attr_threads self in
  ret (VInt (Z.of_nat (size X))).

End ThreadSet.

(** ** Generator objects *)

Module Generator.

Definition close (g : ref) (w : world) : world :=
  set_gens (alter (fun G => {| g_set := g_set G; g_used := g_used G;
                               g_rest := g_rest G; g_finished := true |})
                  g (w_gens w)) w.

Definition advance (g : ref) (w : world) : world :=
  set_gens (alter (fun G => {| g_set := g_set G; g_used := g_used G;
                               g_rest := tail (g_rest G);
                               g_finished := g_finished G |})
                  g (w_gens w)) w.

(** [next(g)].  The set iterator refuses to go on when the set has changed
    size since the iterator was made; an exception that leaves the
    generator finishes it. *)
Definition next (g : ref) : M pyval := fun w =>
  match w_gens w !! g with
  | None => (Raise AttributeError, w)
  | Some G =>
      if g_finished G then (Raise StopIteration, w)
      else
        match w_sets w !! g_set G with
        | None => (Raise AttributeError, close g w)
        | Some X =>
            if decide (size X = g_used G)
            then match g_rest G with
                 | [] => (Raise StopIteration, close g w)
                 | t :: _ =>
                     match Thread.is_alive t (advance g w) with
                     | (Ret v, w1) => (Ret v, w1)
                     | (Raise e, w1) => (Raise e, close g w1)
                     | (Hang, w1) => (Hang, w1)
                     end
                 end
            else (Raise RuntimeError, close g w)
        end
  end.

(** Members the generator has still to visit. *)
Definition remaining (g : ref) (w : world) : list tid :=
  match w_gens w !! g with
  | Some G => if g_finished G then [] else g_rest G
  | None => []
  end.

(** [list(g)]: call [next] until [StopIteration].  [None] when the fuel
    runs out first. *)
Fixpoint drain (fuel : nat) (g : ref) (w : world)
  : option (res (list pyval) * world) :=
  match fuel with
  | O => None
  | S n =>
      match next g w with
      | (Ret v, w1) =>
          match drain n g w1 with
          | Some (Ret vs, w2) => Some (Ret (v :: vs), w2)
          | other => other
          end
      | (Raise StopIteration, w1) => Some (Ret [], w1)
      | (Raise e, w1) => Some (Raise e, w1)
      | (Hang, w1) => Some (Hang, w1)
      end
  end.

Definition to_list (g : ref) (w : world)
  : option (res (list pyval) * world) :=
  drain (S (length (remaining g w))) g w.

End Generator.

(** ** [class ThreadManager] *)

Module ThreadManager.

Definition attr_threads (self : ref) : M (list tid) := fun w =>
  match w_mgrs w !! self with
  | Some m => (Ret (_threads m), w)
  | None => (Raise AttributeError, w)
  end.

Definition attr_join_timeout (self : ref) : M timeout := fun w =>
  match w_mgrs w !! self with
  | Some m => (Ret (_join_timeout m), w)
  | None => (Raise AttributeError, w)
  end.

(** [self._threads.append(thread)] *)
Definition append (self : ref) (thread : tid) : M pyval := fun w =>
  match w_mgrs w !! self with
  | Some m =>
      let m' := {| _join_timeout := _join_timeout m;
                   _threads := _threads m ++ [thread] |} in
      (Ret VNone, set_mgrs (<[self := m']> (w_mgrs w)) w)
  | None => (Raise AttributeError, w)
  end.

Definition __init__ (self : ref) (join_timeout : timeout) : M pyval :=
  fun w =>
    let m := {| _join_timeout := join_timeout; _threads := [] |} in
    (Ret VNone, set_mgrs (<[self := m]> (w_mgrs w)) w).

(** The call [ThreadManager(join_timeout)]. *)
Definition new (join_timeout : timeout) : M pyval := fun w =>
  let self := fresh (dom (w_mgrs w)) in
  (__init__ self join_timeout ;;; ret (VManager self)) w.

Definition __call__ (self : ref) (target : pyval) (args : list pyval)
    (kwargs : list (string * pyval)) : M pyval :=
  let! thread :=
    Thread.construct []
      [("target", target); ("args", VTuple args); ("kwargs", VDict kwargs)] in
  append self thread ;;;
  ret (VThread thread).

Definition create_thread (self : ref) (args : list pyval)
    (kwargs : list (string * pyval)) : M pyval :=
  let! thread := Thread.construct args kwargs in
  append self thread ;;;
  ret (VThread thread).

Definition __enter__ (self : ref) : M pyval := ret VNone.

Definition __exit__ (self : ref) (args : list pyval) : M pyval :=
  let! threads := attr_threads self in
  for_each
    (fun thread =>
       let! alive := Thread.is_alive thread in
       if truthy alive
       then let! tmo := attr_join_timeout self in Thread.join tmo thread
       else ret VNone)
    threads.

End ThreadManager.

(** ** The [with] statement *)

(** How a block is left when it does not raise: by running off its end or by
    a [return] of the enclosing function. *)
Inductive flow : Type :=
  | Fallthrough
  | EarlyReturn (v : pyval).

(** [with mgr as name: body].  [__enter__] gives the value bound to [name];
    [__exit__] is called however the block is left, with the exception
    triple or three [None]s, and a true result swallows the exception. *)
Definition with_ (mgr : ref) (body : pyval -> M flow) : M flow := fun w =>
  match ThreadManager.__enter__ mgr w with
  | (Ret name, w1) =>
      match body name w1 with
      | (Ret f, w2) =>
          match ThreadManager.__exit__ mgr [VNone; VNone; VNone] w2 with
          | (Ret _, w3) => (Ret f, w3)
          | (Raise e, w3) => (Raise e, w3)
          | (Hang, w3) => (Hang, w3)
          end
      | (Raise e, w2) =>
          match ThreadManager.__exit__ mgr [VExcType e; VExc e; VTraceback] w2
          with
          | (Ret v, w3) =>
              if truthy v then (Ret Fallthrough, w3) else (Raise e, w3)
          | (Raise e', w3) => (Raise e', w3)
          | (Hang, w3) => (Hang, w3)
          end
      | (Hang, w2) => (Hang, w2)
      end
  | (Raise e, w1) => (Raise e, w1)
  | (Hang, w1) => (Hang, w1)
  end.

(** ** Notions used in the statements *)

(** A thread's state only moves forward under the rest of the system: a
    running thread may finish, nothing else changes. *)
Definition evolves (o o' : option run_state) : Prop :=
  o' = o \/ (o = Some Running /\ o' = Some Finished).

(** The objects of the module (sets, managers, generators) are the same. *)
Definition same_objects (w w' : world) : Prop :=
  w_sets w' = w_sets w /\ w_mgrs w' = w_mgrs w /\ w_gens w' = w_gens w.

(** A thread that has been started: running or already finished. *)
Definition started (o : option run_state) : Prop :=
  o = Some Running \/ o = Some Finished.

(** The calls that leaving the scope of a manager makes, in the words of
    the description: the registry is walked from its first entry to its
    last; an entry seen alive is joined with the manager's timeout, an
    entry seen not alive is passed over; the walk stops before the end only
    when a join without timeout never returns. *)
Inductive exit_shape (tmo : timeout)
  : list tid -> res pyval -> list event -> Prop :=
  | exit_done :
      exit_shape tmo [] (Ret VNone) []
  | exit_skip t l r evs :
      exit_shape tmo l r evs ->
      exit_shape tmo (t :: l) r (EIsAlive t false :: evs)
  | exit_join t b l r evs :
      exit_shape tmo l r evs ->
      exit_shape tmo (t :: l) r
        (EIsAlive t true :: EJoin t tmo (Ret b) :: evs)
  | exit_block t l :
      tmo = None ->
      exit_shape tmo (t :: l) Hang [EIsAlive t true; EJoin t tmo Hang].

(** What the [with] statement makes of the way its block ended and of the
    outcome of [__exit__]. *)
Definition leave (block : res flow) (r : res pyval) : res flow :=
  match block, r with
  | Ret f, Ret _ => Ret f
  | Raise e, Ret v => if truthy v then Ret Fallthrough else Raise e
  | Hang, _ => Hang
  | _, Raise e' => Raise e'
  | _, Hang => Hang
  end.

(** The calls of [ThreadSet.join] in the words of the description: one
    [join] per member, each with the timeout that was given. *)
Inductive join_shape (tmo : timeout)
  : list tid -> res pyval -> list event -> Prop :=
  | join_done :
      join_shape tmo [] (Ret VNone) []
  | join_next t b l r evs :
      join_shape tmo l r evs ->
      join_shape tmo (t :: l) r (EJoin t tmo (Ret b) :: evs)
  | join_block t l :
      tmo = None ->
      join_shape tmo (t :: l) Hang [EJoin t tmo Hang].

(** The generator over a set [self] of size [n] with [rest] still to
    visit. *)
Definition gen_at (self : ref) (n : nat) (rest : list tid) (fin : bool)
  : generator :=
  {| g_set := self; g_used := n; g_rest := rest; g_finished := fin |}.

(** Whether a thread is running in a given store. *)
Definition alive_now (w : world) (t : tid) : bool :=
  match Thread.state t w with
  | Some Running => true
  | _ => false
  end.

(** A call of one of the two factory forms. *)
Inductive factory : Type :=
  | ViaCall (target : pyval) (args : list pyval)
            (kwargs : list (string * pyval))
  | ViaCreate (args : list pyval) (kwargs : list (string * pyval)).

Definition run_factory (self : ref) (f : factory) : M pyval :=
  match f with
  | ViaCall target args kwargs => ThreadManager.__call__ self target args kwargs
  | ViaCreate args kwargs => ThreadManager.create_thread self args kwargs
  end.

(** The construction of the thread object in either form. *)
Definition construct_of (f : factory) : M tid :=
  match f with
  | ViaCall target args kwargs =>
      Thread.construct []
        [("target", target); ("args", VTuple args); ("kwargs", VDict kwargs)]
  | ViaCreate args kwargs => Thread.construct args kwargs
  end.

(** Where a caller is in its factory call, as the other callers can find
    it: not yet begun, thread object made but not yet appended, back with
    the thread, or out with an exception. *)
Inductive caller : Type :=
  | Pending (f : factory)
  | Created (thread : tid)
  | Returned (v : pyval)
  | Failed (e : exn).

(** One step of a caller.  Making the thread object and appending to the
    registry list are each one step: no other caller runs in the middle of
    a [list.append]. *)
Definition caller_step (self : ref) (c : caller) (w : world)
  : caller * world :=
  match c with
  | Pending f =>
      match construct_of f w with
      | (Ret t, w') => (Created t, w')
      | (Raise e, w') => (Failed e, w')
      | (Hang, w') => (c, w')
      end
  | Created t =>
      match ThreadManager.append self t w with
      | (Ret _, w') => (Returned (VThread t), w')
      | (Raise e, w') => (Failed e, w')
      | (Hang, w') => (c, w')
      end
  | _ => (c, w)
  end.

(** Callers take steps in the order a schedule names them. *)
Fixpoint run_schedule (self : ref) (sched : list nat)
    (cs : list caller) (w : world) : list caller * world :=
  match sched with
  | [] => (cs, w)
  | i :: sched' =>
      match cs !! i with
      | Some c =>
          let '(c', w') := caller_step self c w in
          run_schedule self sched' (<[i := c']> cs) w'
      | None => run_schedule self sched' cs w
      end
  end.

Definition created_thread (c : caller) : option tid :=
  match c with Created t => Some t | _ => None end.

Definition returned_thread (c : caller) : option tid :=
  match c with Returned (VThread t) => Some t | _ => None end.

Definition outcome (c : caller) : res pyval :=
  match c with
  | Returned v => Ret v
  | Failed e => Raise e
  | _ => Hang
  end.

(** The registry while factory calls are under way: it is the registry of
    the start followed by the threads of the callers that are back, each
    once; these and the threads made but not yet appended are all distinct
    and were made after the start. *)
Definition registry_inv (self : ref) (m : manager) (w0 : world)
    (cs : list caller) (w : world) : Prop :=
  exists L,
    w_mgrs w !! self
      = Some {| _join_timeout := _join_timeout m;
                _threads := _threads m ++ L |}
    /\ L ≡ₚ omap returned_thread cs
    /\ NoDup (L ++ omap created_thread cs)
    /\ Forall (fun t => w_threads w0 !! t = None /\ is_Some (w_threads w !! t))
         (L ++ omap created_thread cs)
    /\ (forall t, is_Some (w_threads w0 !! t) -> is_Some (w_threads w !! t)).

(** Every entry of the registry of a manager is a thread object of the
    store. *)
Definition registry_valid (self : ref) (w : world) : Prop :=
  exists m,
    w_mgrs w !! self = Some m
    /\ Forall (fun t => is_Some (Thread.state t w)) (_threads m).

(** What a step that only makes thread objects and appends to the registry
    of [self] may change: the log of calls, the sets, the generators, the
    schedule and the other managers stay as they are; a thread object that
    was there is unchanged; a thread object that is new is not started. *)
Definition only_creates (self : ref) (w w' : world) : Prop :=
  w_trace w' = w_trace w
  /\ w_sets w' = w_sets w
  /\ w_gens w' = w_gens w
  /\ w_env w' = w_env w
  /\ (forall r, r <> self -> w_mgrs w' !! r = w_mgrs w !! r)
  /\ (forall t o, w_threads w !! t = Some o -> w_threads w' !! t = Some o)
  /\ (forall t o, w_threads w' !! t = Some o ->
                  w_threads w !! t = Some o
                  \/ (w_threads w !! t = None /\ th_state o = NotStarted)).

(** ** The scope of [test_multithreaded_radix] *)





(** ** The scope of [test_racing_iter_append] *)


(** ** The helpers of [test_multithreaded_radix] *)

(** [range(0, stop, step)] for the length [stop] of a list: a zero step is
    a [ValueError] ([None] here); a negative step gives nothing. *)
Definition range_from_zero (stop : nat) (step : Z) : option (list nat) :=
  if decide (step = 0)%Z then None
  else if decide (step < 0)%Z then Some []
  else Some ((fun k => k * Z.to_nat step)
               <$> seq 0 ((stop + Z.to_nat step - 1) / Z.to_nat step)).

(** [list(chunks(seq, size))]: the sets of the slices [seq[pos : pos + size]]
    for the positions of the range. *)
Definition chunks (addresses : list string) (size : Z)
  : option (list (gset string)) :=
  match range_from_zero (length addresses) size with
  | None => None
  | Some positions =>
      Some (map (fun pos : nat =>
                   (list_to_set (take (Z.to_nat size) (drop pos addresses))
                    : gset string))
                positions)
  end.

(** An IPv4 network: its first address as a number, and its prefix
    length. *)
Record IPv4Network : Type := {
  network_address : Z;
  prefixlen : Z
}.

(** [ipaddress.IPv4Network((address, prefix))] of the standard library: the
    address is a 32-bit number, the prefix is at most 32 bits long, and no
    bit of the address may be set after the prefix; anything else is an
    error ([None] here). *)
Definition IPv4Network_of (address prefix : Z) : option IPv4Network :=
  if decide (0 <= address < 2 ^ 32 /\ 0 <= prefix <= 32
             /\ Z.land address (Z.ones (32 - prefix)) = 0)%Z
  then Some {| network_address := address; prefixlen := prefix |}
  else None.

(** [ipaddress.IPv4Address(n)] of the standard library: a 32-bit number. *)
Definition IPv4Address_of (n : Z) : option Z :=
  if decide (0 <= n < 2 ^ 32)%Z then Some n else None.

(** [random_network()], the two numbers drawn by [rand.randint] being
    arguments: [masklen] from 0 to 28 and [network_int] below
    [2 ** masklen]. *)
Definition random_network (masklen network_int : Z) : option IPv4Network :=
  IPv4Network_of (Z.shiftl network_int (32 - masklen)) masklen.

(** The bound of the draw in [random_address]. *)
Definition host_bits (network : IPv4Network) : Z := (32 - prefixlen network)%Z.

(** [random_address(network)], the number drawn by [rand.randint], from 0
    to [2 ** host_bits - 1], being an argument. *)
Definition random_address (network : IPv4Network) (random_bits : Z)
  : option Z :=
  let random_ip_int := (network_address network + random_bits)%Z in
  IPv4Address_of random_ip_int.

(** ** A store to run the methods on *)

Definition worker (s : run_state) : thread_obj :=
  {| th_target := VFunc "work"; th_args := VTuple []; th_kwargs := VDict [];
     th_state := s |}.

Definition demo_manager : manager :=
  {| _join_timeout := Some (1 # 2)%Q; _threads := [1; 2; 3; 4]%positive |}.

(** Threads 1, 2, 5 and 6 are not started, 3 is running, 4 is finished. *)
Definition demo : world :=
  {| w_threads :=
       <[1%positive := worker NotStarted]>
         (<[2%positive := worker NotStarted]>
            (<[3%positive := worker Running]>
               (<[4%positive := worker Finished]>
                  (<[5%positive := worker NotStarted]>
                     (<[6%positive := worker NotStarted]> ∅)))));
     w_sets :=
       <[1%positive := {[1%positive; 2%positive]}]>
         (<[2%positive := {[1%positive; 2%positive; 3%positive]}]>
            (<[3%positive := {[3%positive; 4%positive]}]>
               (<[4%positive := {[5%positive; 3%positive; 6%positive]}]>
                  (<[5%positive := {[3%positive]}]> ∅))));
     w_mgrs := <[1%positive := demo_manager]> ∅;
     w_gens := ∅;
     w_trace := [];
     w_env := [] |}.

(** The same store when the next wait is satisfied ([true]) or not. *)
Definition waiting (satisfied : bool) : world :=
  set_env [{| ec_done := []; ec_wait := satisfied |}] demo.

Definition demo_calls : list factory :=
  [ViaCall (VFunc "reader") [VInt 0] [];
   ViaCreate [VNone; VFunc "writer"] [("daemon", VBool true)];
   ViaCreate [VInt 7] []].

(** The store [demo] with two more sets and two more managers: set 6 has
    a running, a finished and a not-started member, set 7 a finished one;
    manager 2 has no timeout, manager 3 has no running thread. *)
Definition demo_more : world :=
  set_mgrs
    (<[2%positive := {| _join_timeout := None;
                        _threads := [1; 3; 4]%positive |}]>
       (<[3%positive := {| _join_timeout := Some (1 # 2)%Q;
                           _threads := [1; 4; 2]%positive |}]>
          (w_mgrs demo)))
    (set_sets
       (<[6%positive := {[2%positive; 3%positive; 4%positive]}]>
          (<[7%positive := {[4%positive]}]> (w_sets demo)))
       demo).


(** * Properties *)

(** ** What a call on a thread object leaves alone *)

Lemma evolves_refl o : evolves o o.
Proof. by left. Qed.

Lemma evolves_trans o1 o2 o3 : evolves o1 o2 -> evolves o2 o3 -> evolves o1 o3.
Proof. unfold evolves. intros [->|[-> ->]] [->|[? ->]]; naive_solver. Qed.

Lemma evolves_not_started o o' :
  evolves o o' -> (o' = Some NotStarted <-> o = Some NotStarted).
Proof. intros [->|[-> ->]]; naive_solver. Qed.

Lemma evolves_is_Some o o' : evolves o o' -> (is_Some o' <-> is_Some o).
Proof. intros [->|[-> ->]]; split; eauto. Qed.

Lemma same_objects_refl w : same_objects w w.
Proof. by repeat split. Qed.

Lemma same_objects_trans w1 w2 w3 :
  same_objects w1 w2 -> same_objects w2 w3 -> same_objects w1 w3.
Proof. unfold same_objects. intros (-> & -> & ->) (-> & -> & ->). done. Qed.

Lemma finish_evolves (o : option thread_obj) :
  evolves (th_state <$> o) (th_state <$> (Thread.finish <$> o)).
Proof.
  destruct o as [[tg a k []]|]; cbn; unfold Thread.finish; cbn;
    [by left | by right | by left | by left].
Qed.

Lemma finish_all_evolves done ths (t : tid) :
  evolves (th_state <$> ths !! t) (th_state <$> Thread.finish_all done ths !! t).
Proof.
  induction done as [|u done IH]; cbn; [apply evolves_refl|].
  destruct (decide (u = t)) as [->|Hne].
  - rewrite lookup_alter_eq. eapply evolves_trans; [exact IH|].
    apply finish_evolves.
  - by rewrite lookup_alter_ne.
Qed.

Lemma tick_spec w :
  exists b w', Thread.tick w = (Ret b, w')
    /\ same_objects w w' /\ w_trace w' = w_trace w
    /\ forall t, evolves (Thread.state t w) (Thread.state t w').
Proof.
  unfold Thread.tick. destruct (w_env w) as [|c cs].
  - exists true, w. repeat split; auto using evolves_refl.
  - eexists _, _. split; [reflexivity|]. repeat split.
    intros t. apply finish_all_evolves.
Qed.

Lemma put_state_same t u s w :
  Thread.state u w = Some s ->
  Thread.state u (Thread.put_state t s w) = Some s.
Proof.
  unfold Thread.state, Thread.put_state; cbn. intros H.
  destruct (decide (t = u)) as [->|Hne].
  - rewrite lookup_alter_eq. by destruct (w_threads w !! u).
  - by rewrite lookup_alter_ne.
Qed.

Lemma put_state_eq t s w :
  is_Some (Thread.state t w) ->
  Thread.state t (Thread.put_state t s w) = Some s.
Proof.
  unfold Thread.state, Thread.put_state; cbn. intros [x H].
  rewrite lookup_alter_eq. by destruct (w_threads w !! t).
Qed.

Lemma put_state_ne t u s w :
  t <> u -> Thread.state u (Thread.put_state t s w) = Thread.state u w.
Proof.
  unfold Thread.state, Thread.put_state; cbn. intros Hne.
  by rewrite lookup_alter_ne.
Qed.

Lemma state_log t e w : Thread.state t (log e w) = Thread.state t w.
Proof. reflexivity. Qed.

(** [t.start()] on a thread object that was not started. *)
Lemma start_fresh t w :
  Thread.state t w = Some NotStarted ->
  exists w', Thread.start t w = (Ret VNone, w')
    /\ same_objects w w'
    /\ w_trace w' = w_trace w ++ [EStart t true]
    /\ Thread.state t w' = Some Running
    /\ forall u, u <> t -> evolves (Thread.state u w) (Thread.state u w').
Proof.
  intros Hs. unfold Thread.start, bind.
  destruct (tick_spec w) as (b & w1 & -> & Hobj & Htr & Hev).
  assert (Thread.state t w1 = Some NotStarted) as ->
    by (by apply (evolves_not_started _ _ (Hev t))).
  eexists. split; [reflexivity|]. repeat split; try apply Hobj.
  - cbn. by rewrite Htr.
  - rewrite state_log. apply put_state_eq.
    apply (evolves_is_Some _ _ (Hev t)); eauto.
  - intros u Hu. rewrite state_log, put_state_ne by done. apply Hev.
Qed.

(** [t.start()] on a thread that was started before. *)
Lemma start_twice t w s :
  Thread.state t w = Some s -> s <> NotStarted ->
  exists w', Thread.start t w = (Raise RuntimeError, w')
    /\ same_objects w w'
    /\ w_trace w' = w_trace w ++ [EStart t false]
    /\ forall u, evolves (Thread.state u w) (Thread.state u w').
Proof.
  intros Hs Hne. unfold Thread.start, bind.
  destruct (tick_spec w) as (b & w1 & -> & Hobj & Htr & Hev).
  destruct (Thread.state t w1) as [s1|] eqn:Hs1.
  2:{ pose proof (evolves_is_Some _ _ (Hev t)) as [_ Hi].
      rewrite Hs1 in Hi. destruct Hi as [? ?]; [eauto|done]. }
  assert (s1 <> NotStarted).
  { intros ->. apply (evolves_not_started _ _ (Hev t)) in Hs1. congruence. }
  destruct s1; [done| |]; (eexists; split; [reflexivity|]);
    (repeat split; try apply Hobj; [cbn; by rewrite Htr | apply Hev]).
Qed.

(** [t.is_alive()] on a thread object: a boolean, one event, no state
    change of its own. *)
Lemma is_alive_spec t w :
  is_Some (Thread.state t w) ->
  exists b w', Thread.is_alive t w = (Ret (VBool b), w')
    /\ same_objects w w'
    /\ w_trace w' = w_trace w ++ [EIsAlive t b]
    /\ (b = true <-> Thread.state t w' = Some Running)
    /\ forall u, evolves (Thread.state u w) (Thread.state u w').
Proof.
  intros Hs. unfold Thread.is_alive, bind.
  destruct (tick_spec w) as (b & w1 & -> & Hobj & Htr & Hev).
  destruct (Thread.state t w1) as [s1|] eqn:Hs1.
  2:{ pose proof (evolves_is_Some _ _ (Hev t)) as [_ Hi].
      rewrite Hs1 in Hi. destruct Hi as [? ?]; [eauto|done]. }
  eexists _, _. split; [reflexivity|]. repeat split; try apply Hobj.
  - cbn. by rewrite Htr.
  - rewrite state_log, Hs1. by destruct s1.
  - rewrite state_log, Hs1. by destruct s1; intros [= ].
  - intros u. rewrite state_log. apply Hev.
Qed.

(** [t.join(timeout)] on a thread that was started: it answers whether the
    thread is finished, or never returns when there is no timeout. *)
Lemma join_started tmo t w s :
  Thread.state t w = Some s -> s <> NotStarted ->
  exists r w', Thread.join tmo t w = (r, w')
    /\ same_objects w w'
    /\ (forall u, evolves (Thread.state u w) (Thread.state u w'))
    /\ ((exists b, r = Ret (VBool b)
           /\ w_trace w' = w_trace w ++ [EJoin t tmo (Ret b)]
           /\ (b = true <-> Thread.state t w' = Some Finished))
        \/ (r = Hang /\ tmo = None
            /\ w_trace w' = w_trace w ++ [EJoin t tmo Hang])).
Proof.
  intros Hs Hne. unfold Thread.join, bind.
  destruct (tick_spec w) as (b & w1 & -> & Hobj & Htr & Hev).
  destruct (Thread.state t w1) as [s1|] eqn:Hs1.
  2:{ pose proof (evolves_is_Some _ _ (Hev t)) as [_ Hi].
      rewrite Hs1 in Hi. destruct Hi as [? ?]; [eauto|done]. }
  assert (s1 <> NotStarted).
  { intros ->. apply (evolves_not_started _ _ (Hev t)) in Hs1. congruence. }
  destruct s1; [done| |].
  - destruct b.
    + eexists _, _. split; [reflexivity|]. split; [apply Hobj|]. split.
      * intros u. rewrite state_log. destruct (decide (t = u)) as [<-|Hu].
        -- rewrite put_state_eq by (rewrite Hs1; eauto).
           destruct (Hev t) as [He|[He1 He2]]; [|congruence].
           rewrite Hs1 in He. right. by rewrite <- He.
        -- rewrite put_state_ne by done. apply Hev.
      * left. exists true. split; [done|]. split; [cbn; by rewrite Htr|].
        split; [|done]. intros _. rewrite state_log.
        apply put_state_eq. rewrite Hs1; eauto.
    + destruct tmo as [d|].
      * eexists _, _. split; [reflexivity|]. split; [apply Hobj|].
        split; [intros u; rewrite state_log; apply Hev|].
        left. exists false. split; [done|]. split; [cbn; by rewrite Htr|].
        rewrite state_log, Hs1. split; [done|]. by intros [= ].
      * eexists _, _. split; [reflexivity|]. split; [apply Hobj|].
        split; [intros u; rewrite state_log; apply Hev|].
        right. split; [done|]. split; [done|]. cbn. by rewrite Htr.
  - eexists _, _. split; [reflexivity|]. split; [apply Hobj|].
    split; [intros u; rewrite state_log; apply Hev|].
    left. exists true. split; [done|]. split; [cbn; by rewrite Htr|].
    split; [|done]. intros _. by rewrite state_log.
Qed.

Lemma evolves_started o o' : evolves o o' -> started o -> started o'.
Proof. unfold started. intros [->|[-> ->]] Hs; [done|by right]. Qed.

Lemma started_inv o :
  started o -> exists s, o = Some s /\ s <> NotStarted.
Proof. intros [->| ->]; eauto. Qed.

(** ** Loops *)

Lemma for_each_app body l1 l2 w :
  for_each body (l1 ++ l2) w
  = (for_each body l1 ;;; for_each body l2) w.
Proof.
  revert w. induction l1 as [|t l1 IH]; intros w; [done|].
  cbn [for_each app]. unfold bind.
  destruct (body t w) as [[v|e|] w1]; [apply IH|done|done].
Qed.

(** Starting a run of distinct threads none of which was started. *)
Lemma for_each_start_fresh l w :
  NoDup l ->
  Forall (fun t => Thread.state t w = Some NotStarted) l ->
  exists w', for_each Thread.start l w = (Ret VNone, w')
    /\ same_objects w w'
    /\ w_trace w' = w_trace w ++ map (fun t => EStart t true) l
    /\ Forall (fun t => started (Thread.state t w')) l
    /\ forall u, u ∉ l -> evolves (Thread.state u w) (Thread.state u w').
Proof.
  revert w. induction l as [|t l IH]; intros w Hnd Hall.
  - exists w. cbn. rewrite app_nil_r.
    repeat split; auto using evolves_refl.
  - apply NoDup_cons in Hnd as [Hnin Hnd].
    apply Forall_cons in Hall as [Ht Hall].
    destruct (start_fresh t w Ht) as (w1 & E1 & Hobj1 & Htr1 & Hrun & Hev1).
    destruct (IH w1 Hnd) as (w2 & E2 & Hobj2 & Htr2 & Hst & Hev2).
    { apply Forall_forall. intros u Hu. rewrite Forall_forall in Hall.
      assert (u <> t) as Hne by (intros ->; done).
      apply (evolves_not_started _ _ (Hev1 u Hne)). by apply Hall. }
    exists w2. cbn. unfold bind. rewrite E1, E2.
    split; [done|]. split; [by eapply same_objects_trans|].
    split; [rewrite Htr2, Htr1, <- app_assoc; done|]. split.
    + constructor; [|done].
      eapply evolves_started; [apply Hev2, Hnin|]. by left.
    + intros u Hu. apply not_elem_of_cons in Hu as [Hut Hul].
      eapply evolves_trans; [by apply Hev1|by apply Hev2].
Qed.

(** ** Thread sets: [start] *)

(** C6.  [ThreadSet.start] calls [start] on the members one after the other
    in the iteration order of the set.  When no member was started, each
    member is started once and the call returns [None].  When a member was
    already started, its [RuntimeError] comes out of [ThreadSet.start]
    right after the calls on the members before it: these are started, the
    members after it are not called and stay unstarted. *)
Theorem start_every_member_or_abort (self : ref) (X : gset tid) (w : world) :
  w_sets w !! self = Some X ->
  (Forall (fun t => Thread.state t w = Some NotStarted) (elements X) ->
   exists w',
     ThreadSet.start self w = (Ret VNone, w')
     /\ w_trace w' = w_trace w ++ map (fun t => EStart t true) (elements X)
     /\ Forall (fun t => started (Thread.state t w')) (elements X))
  /\ (forall l1 t l2,
        elements X = l1 ++ t :: l2 ->
        Forall (fun u => Thread.state u w = Some NotStarted) l1 ->
        started (Thread.state t w) ->
        exists w',
          ThreadSet.start self w = (Raise RuntimeError, w')
          /\ w_trace w'
             = w_trace w ++ map (fun u => EStart u true) l1 ++ [EStart t false]
          /\ Forall (fun u => started (Thread.state u w')) l1
          /\ Forall (fun u => Thread.state u w = Some NotStarted ->
                              Thread.state u w' = Some NotStarted) l2).
Proof.
  intros HX. unfold ThreadSet.start, bind, ThreadSet.attr_threads.
  rewrite HX. pose proof (NoDup_elements X) as Hnd. split.
  - intros Hall.
    destruct (for_each_start_fresh _ w Hnd Hall) as (w' & E & _ & Htr & Hst & _).
    eauto.
  - intros l1 t l2 Hel Hl1 Ht. rewrite Hel in Hnd |- *.
    apply NoDup_app in Hnd as (Hnd1 & Hdisj & Hnd2).
    apply NoDup_cons in Hnd2 as [Ht2 Hnd2].
    destruct (for_each_start_fresh _ w Hnd1 Hl1)
      as (w1 & E1 & _ & Htr1 & Hst1 & Hev1).
    assert (t ∉ l1) as Htl1 by (intros Hin; apply (Hdisj t Hin); set_solver).
    destruct (started_inv _ (evolves_started _ _ (Hev1 t Htl1) Ht))
      as (s & Hs & Hsne).
    destruct (start_twice t w1 s Hs Hsne) as (w2 & E2 & _ & Htr2 & Hev2).
    exists w2. rewrite for_each_app. unfold bind. rewrite E1. cbn.
    unfold bind. rewrite E2. split; [done|].
    split; [rewrite Htr2, Htr1, <- app_assoc; done|]. split.
    + eapply Forall_impl; [exact Hst1|]. intros u Hu.
      eapply evolves_started; [apply Hev2|done].
    + apply Forall_forall. intros u Hu Hns.
      assert (u ∉ l1) as Hul1
        by (intros Hin; apply (Hdisj u Hin); set_solver).
      apply (evolves_not_started _ _ (Hev2 u)).
      apply (evolves_not_started _ _ (Hev1 u Hul1)). done.
Qed.

(** ** The manager: leaving the scope *)

Lemma exit_shape_result tmo l r evs :
  exit_shape tmo l r evs ->
  r = Ret VNone \/ (r = Hang /\ tmo = None).
Proof. induction 1; auto. Qed.

Lemma exit_loop self m l w :
  w_mgrs w !! self = Some m ->
  Forall (fun t => is_Some (Thread.state t w)) l ->
  exists r evs w',
    for_each
      (fun thread =>
         let! alive := Thread.is_alive thread in
         if truthy alive
         then let! tmo := ThreadManager.attr_join_timeout self in
              Thread.join tmo thread
         else ret VNone) l w = (r, w')
    /\ same_objects w w'
    /\ w_trace w' = w_trace w ++ evs
    /\ exit_shape (_join_timeout m) l r evs
    /\ (forall u, evolves (Thread.state u w) (Thread.state u w'))
    /\ (forall t tmo' r',
          Thread.state t w = Some NotStarted -> EJoin t tmo' r' ∉ evs).
Proof.
  revert w. induction l as [|t l IH]; intros w Hm Hall.
  - exists (Ret VNone), [], w. cbn. rewrite app_nil_r.
    repeat split; auto using evolves_refl, exit_done.
    intros ? ? ? _ Hin. by apply elem_of_nil in Hin.
  - apply Forall_cons in Hall as [Ht Hall].
    destruct (is_alive_spec t w Ht) as (b & w1 & E1 & Hobj1 & Htr1 & Hb & Hev1).
    assert (Forall (fun u => is_Some (Thread.state u w1)) l) as Hall1.
    { eapply Forall_impl; [exact Hall|]. intros u Hu.
      by apply (evolves_is_Some _ _ (Hev1 u)). }
    assert (w_mgrs w1 !! self = Some m) as Hm1
      by (destruct Hobj1 as (_ & -> & _); done).
    cbn [for_each]. unfold bind at 1. unfold bind at 1. rewrite E1.
    destruct b; cbn [truthy].
    + assert (Thread.state t w1 = Some Running) as Hrun by (by apply Hb).
      unfold bind at 1. unfold ThreadManager.attr_join_timeout at 1.
      rewrite Hm1.
      destruct (join_started (_join_timeout m) t w1 Running Hrun ltac:(done))
        as (r & w2 & E2 & Hobj2 & Hev2 & Hcase).
      rewrite E2.
      destruct Hcase as [(b' & -> & Htr2 & _)|(-> & Hnone & Htr2)].
      * destruct (IH w2) as (r & evs & w3 & E3 & Hobj3 & Htr3 & Hsh & Hev3 & Hnj).
        { destruct Hobj2 as (_ & -> & _); done. }
        { eapply Forall_impl; [exact Hall1|]. intros u Hu.
          by apply (evolves_is_Some _ _ (Hev2 u)). }
        exists r, (EIsAlive t true :: EJoin t (_join_timeout m) (Ret b') :: evs), w3.
        split; [exact E3|].
        split; [eauto using same_objects_trans|].
        split; [rewrite Htr3, Htr2, Htr1, <- !app_assoc; done|].
        split; [by constructor|].
        split; [intros u; eauto using evolves_trans|].
        intros u tmo' r' Hu Hin.
        apply elem_of_cons in Hin as [Hin|Hin]; [done|].
        apply elem_of_cons in Hin as [Hin|Hin].
        -- injection Hin as -> _ _.
           apply (evolves_not_started _ _ (Hev1 t)) in Hu. congruence.
        -- eapply Hnj; [|exact Hin].
           apply (evolves_not_started _ _ (Hev2 u)).
           by apply (evolves_not_started _ _ (Hev1 u)).
      * exists Hang, [EIsAlive t true; EJoin t (_join_timeout m) Hang], w2.
        split; [done|].
        split; [eauto using same_objects_trans|].
        split; [rewrite Htr2, Htr1, <- !app_assoc; done|].
        split; [by constructor|].
        split; [intros u; eauto using evolves_trans|].
        intros u tmo' r' Hu Hin.
        apply elem_of_cons in Hin as [Hin|Hin]; [done|].
        apply list_elem_of_singleton in Hin. injection Hin as -> _ _.
        apply (evolves_not_started _ _ (Hev1 t)) in Hu. congruence.
    + unfold ret at 1.
      destruct (IH w1 Hm1 Hall1)
        as (r & evs & w3 & E3 & Hobj3 & Htr3 & Hsh & Hev3 & Hnj).
      exists r, (EIsAlive t false :: evs), w3.
      split; [exact E3|].
      split; [eauto using same_objects_trans|].
      split; [rewrite Htr3, Htr1, <- !app_assoc; done|].
      split; [by constructor|].
      split; [intros u; eauto using evolves_trans|].
      intros u tmo' r' Hu Hin.
      apply elem_of_cons in Hin as [Hin|Hin]; [done|].
      eapply Hnj; [|exact Hin].
      by apply (evolves_not_started _ _ (Hev1 u)).
Qed.

Lemma exit_ignores_args self args args' w :
  ThreadManager.__exit__ self args w = ThreadManager.__exit__ self args' w.
Proof. reflexivity. Qed.

Lemma with_unfold self body w0 rb w :
  body VNone w0 = (rb, w) ->
  rb <> Hang ->
  exists args,
    with_ self body w0
    = (leave rb (ThreadManager.__exit__ self args w).1,
       (ThreadManager.__exit__ self args w).2).
Proof.
  intros Hb Hrb. unfold with_, ThreadManager.__enter__, ret. rewrite Hb.
  destruct rb as [f|e|]; [| |done].
  - exists [VNone; VNone; VNone].
    destruct (ThreadManager.__exit__ self [VNone; VNone; VNone] w)
      as [[v|e|] w3]; done.
  - exists [VExcType e; VExc e; VTraceback].
    destruct (ThreadManager.__exit__ self [VExcType e; VExc e; VTraceback] w)
      as [[v|e'|] w3]; cbn; [by destruct (truthy v)|done|done].
Qed.

(** C1.  However the scope of a manager is left (the block ran to its end,
    returned early, or raised), [__exit__] walks the whole registry: every
    thread seen alive is joined with the manager's own timeout, every
    thread seen not alive is passed over without a call that could block,
    so a thread that was never started is never joined.  [__exit__] raises
    nothing and gives [None], so an exception of the block goes on to the
    caller; the only way not to come back is a join without timeout on a
    thread that never finishes. *)
Theorem exit_joins_every_live_thread
    (self : ref) (m : manager) (args : list pyval) (w : world) :
  w_mgrs w !! self = Some m ->
  Forall (fun t => is_Some (Thread.state t w)) (_threads m) ->
  exists r evs w',
    ThreadManager.__exit__ self args w = (r, w')
    /\ (forall body w0 block,
          body VNone w0 = (block, w) -> block <> Hang ->
          with_ self body w0 = (leave block r, w'))
    /\ w_trace w' = w_trace w ++ evs
    /\ exit_shape (_join_timeout m) (_threads m) r evs
    /\ (forall t tmo r',
          Thread.state t w = Some NotStarted -> EJoin t tmo r' ∉ evs)
    /\ (r = Ret VNone \/ (r = Hang /\ _join_timeout m = None)).
Proof.
  intros Hm Hall.
  destruct (exit_loop self m (_threads m) w Hm Hall)
    as (r & evs & w' & E & _ & Htr & Hsh & _ & Hnj).
  assert (forall a, ThreadManager.__exit__ self a w = (r, w')) as Hexit.
  { intros a. unfold ThreadManager.__exit__, bind.
    unfold ThreadManager.attr_threads at 1. rewrite Hm. exact E. }
  exists r, evs, w'. split; [apply Hexit|].
  split.
  { intros body w0 block Hb Hne.
    destruct (with_unfold self body w0 block w Hb Hne) as (a & ->).
    by rewrite Hexit. }
  repeat (split; [done|]). eapply exit_shape_result; eauto.
Qed.

(** ** Thread sets: [join] *)

Lemma join_shape_result tmo l r evs :
  join_shape tmo l r evs ->
  r = Ret VNone \/ (r = Hang /\ tmo = None).
Proof. induction 1; auto. Qed.

Lemma join_loop tmo l w :
  Forall (fun t => started (Thread.state t w)) l ->
  exists r evs w',
    for_each (Thread.join tmo) l w = (r, w')
    /\ same_objects w w'
    /\ w_trace w' = w_trace w ++ evs
    /\ join_shape tmo l r evs
    /\ (forall u, evolves (Thread.state u w) (Thread.state u w')).
Proof.
  revert w. induction l as [|t l IH]; intros w Hall.
  - exists (Ret VNone), [], w. cbn. rewrite app_nil_r.
    repeat split; auto using evolves_refl, join_done.
  - apply Forall_cons in Hall as [Ht Hall].
    destruct (started_inv _ Ht) as (s & Hs & Hne).
    destruct (join_started tmo t w s Hs Hne)
      as (r1 & w1 & E1 & Hobj1 & Hev1 & Hcase).
    cbn [for_each]. unfold bind at 1. rewrite E1.
    destruct Hcase as [(b & -> & Htr1 & _)|(-> & Hnone & Htr1)].
    + destruct (IH w1) as (r & evs & w2 & E2 & Hobj2 & Htr2 & Hsh & Hev2).
      { eapply Forall_impl; [exact Hall|]. intros u Hu.
        eapply evolves_started; [apply Hev1|done]. }
      exists r, (EJoin t tmo (Ret b) :: evs), w2.
      split; [exact E2|].
      split; [eauto using same_objects_trans|].
      split; [rewrite Htr2, Htr1, <- !app_assoc; done|].
      split; [by constructor|].
      intros u; eauto using evolves_trans.
    + exists Hang, [EJoin t tmo Hang], w1.
      repeat split; try apply Hobj1; try done. by constructor.
Qed.

(** C3, as the code has it.  A join of a started handle answers [True] when
    the handle is finished and [False] when the timeout ran out first (and
    does not come back when there is no timeout and the handle never
    finishes).  [ThreadSet.join] makes one such call per member, each with
    the timeout it was given, drops every answer and gives [None]. *)
Theorem set_join_returns_none
    (self : ref) (X : gset tid) (tmo : timeout) (w : world) :
  w_sets w !! self = Some X ->
  Forall (fun t => started (Thread.state t w)) (elements X) ->
  (exists r evs w',
     ThreadSet.join self tmo w = (r, w')
     /\ w_trace w' = w_trace w ++ evs
     /\ join_shape tmo (elements X) r evs
     /\ (r = Ret VNone \/ (r = Hang /\ tmo = None)))
  /\ Forall (fun t =>
       exists r1 w1,
         Thread.join tmo t w = (r1, w1)
         /\ ((exists b, r1 = Ret (VBool b)
                /\ (b = true <-> Thread.state t w1 = Some Finished))
             \/ (r1 = Hang /\ tmo = None))) (elements X).
Proof.
  intros HX Hall. split.
  - unfold ThreadSet.join, bind, ThreadSet.attr_threads. rewrite HX.
    destruct (join_loop tmo _ w Hall) as (r & evs & w' & E & _ & Htr & Hsh & _).
    exists r, evs, w'. repeat (split; [done|]).
    eapply join_shape_result; eauto.
  - eapply Forall_impl; [exact Hall|]. intros t Ht.
    destruct (started_inv _ Ht) as (s & Hs & Hne).
    destruct (join_started tmo t w s Hs Hne)
      as (r1 & w1 & E1 & _ & _ & Hcase).
    exists r1, w1. split; [done|].
    destruct Hcase as [(b & -> & _ & Hb)|(-> & Hnone & _)]; eauto.
Qed.

(** ** Thread sets: construction, union, size *)

Lemma fresh_set_unused w : w_sets w !! fresh (dom (w_sets w)) = None.
Proof. apply not_elem_of_dom, is_fresh. Qed.

Lemma set_sets_id w : set_sets (w_sets w) w = w.
Proof. by destruct w. Qed.

Lemma new_spec l w :
  ThreadSet.new l w
  = (Ret (VThreadSet (fresh (dom (w_sets w)))),
     set_sets (<[fresh (dom (w_sets w)) := list_to_set l]> (w_sets w)) w).
Proof. reflexivity. Qed.

Lemma size_list_to_set_dups (l : list tid) :
  size (list_to_set l : gset tid) = length (remove_dups l).
Proof.
  rewrite <- (size_list_to_set (C := gset tid) (remove_dups l))
    by apply NoDup_remove_dups.
  f_equal. apply set_eq. intros x.
  rewrite !elem_of_list_to_set. by rewrite elem_of_remove_dups.
Qed.

Lemma or_spec self o X Y w :
  w_sets w !! self = Some X ->
  w_sets w !! o = Some Y ->
  ThreadSet.__or__ self (VThreadSet o) w
  = (Ret (VThreadSet (fresh (dom (w_sets w)))),
     set_sets (<[fresh (dom (w_sets w)) := X ∪ Y]> (w_sets w)) w).
Proof.
  intros HX HY. unfold ThreadSet.__or__, bind, ThreadSet.attr_threads.
  rewrite HX, HY, new_spec. by rewrite list_to_set_elements_L.
Qed.

Lemma ior_spec self o X Y w :
  w_sets w !! self = Some X ->
  w_sets w !! o = Some Y ->
  ThreadSet.__ior__ self (VThreadSet o) w
  = (Ret (VThreadSet self), set_sets (<[self := X ∪ Y]> (w_sets w)) w).
Proof.
  intros HX HY. unfold ThreadSet.__ior__, bind, ThreadSet.attr_threads.
  by rewrite HX, HY.
Qed.

Lemma len_spec self X w :
  w_sets w !! self = Some X ->
  ThreadSet.__len__ self w = (Ret (VInt (Z.of_nat (size X))), w).
Proof.
  intros HX. unfold ThreadSet.__len__, bind, ThreadSet.attr_threads.
  by rewrite HX.
Qed.

(** C4.  Both forms of the union refuse a right operand that is not a
    [ThreadSet] with a [TypeError] and change nothing.  With a [ThreadSet]
    on the right, [__or__] gives a new object whose members are those of
    either operand and leaves every existing set as it was; [__ior__] turns
    the left operand into that union. *)
Theorem union_checks_operand
    (self : ref) (X : gset tid) (other : pyval) (w : world) :
  w_sets w !! self = Some X ->
  ((forall o, other <> VThreadSet o) ->
   ThreadSet.__or__ self other w = (Raise TypeError, w)
   /\ ThreadSet.__ior__ self other w = (Raise TypeError, w))
  /\ (forall o Y,
        other = VThreadSet o ->
        w_sets w !! o = Some Y ->
        (exists n w' Z,
           ThreadSet.__or__ self other w = (Ret (VThreadSet n), w')
           /\ w_sets w !! n = None
           /\ w_sets w' !! n = Some Z
           /\ (forall t, t ∈ Z <-> t ∈ X \/ t ∈ Y)
           /\ w_sets w' !! self = Some X
           /\ w_sets w' !! o = Some Y
           /\ forall r, r <> n -> w_sets w' !! r = w_sets w !! r)
        /\ (exists w' Z,
              ThreadSet.__ior__ self other w = (Ret (VThreadSet self), w')
              /\ w_sets w' !! self = Some Z
              /\ (forall t, t ∈ Z <-> t ∈ X \/ t ∈ Y)
              /\ forall r, r <> self -> w_sets w' !! r = w_sets w !! r)).
Proof.
  intros HX. split.
  - intros Hno. destruct other; try done. by destruct (Hno s).
  - intros o Y -> HY. pose proof (fresh_set_unused w) as Hfresh.
    set (n := fresh (dom (w_sets w))) in *. split.
    + exists n, (set_sets (<[n := X ∪ Y]> (w_sets w)) w), (X ∪ Y).
      split; [by apply or_spec|]. split; [done|]. cbn.
      split; [apply lookup_insert_eq|].
      split; [intros t; apply elem_of_union|].
      assert (n <> self) by congruence. assert (n <> o) by congruence.
      split; [by rewrite lookup_insert_ne|].
      split; [by rewrite lookup_insert_ne|].
      intros r Hr. by rewrite lookup_insert_ne.
    + exists (set_sets (<[self := X ∪ Y]> (w_sets w)) w), (X ∪ Y).
      split; [by apply ior_spec|]. cbn.
      split; [apply lookup_insert_eq|].
      split; [intros t; apply elem_of_union|].
      intros r Hr. by rewrite lookup_insert_ne.
Qed.

(** C10.  [__ior__] gives back its left operand itself: no object is made,
    and the members of the right operand are what they were (also when both
    operands are the same object). *)
Theorem ior_returns_self (self o : ref) (X Y : gset tid) (w : world) :
  w_sets w !! self = Some X ->
  w_sets w !! o = Some Y ->
  exists w',
    ThreadSet.__ior__ self (VThreadSet o) w = (Ret (VThreadSet self), w')
    /\ dom (w_sets w') = dom (w_sets w)
    /\ w_sets w' !! o = Some Y
    /\ (forall r, r <> self -> w_sets w' !! r = w_sets w !! r)
    /\ w_threads w' = w_threads w
    /\ w_mgrs w' = w_mgrs w.
Proof.
  intros HX HY.
  exists (set_sets (<[self := X ∪ Y]> (w_sets w)) w).
  split; [by apply ior_spec|]. cbn.
  split; [apply dom_insert_lookup_L; eauto|].
  split.
  - destruct (decide (self = o)) as [->|Hne].
    + rewrite lookup_insert_eq. rewrite HX in HY. injection HY as ->.
      by rewrite union_idemp_L.
    + by rewrite lookup_insert_ne.
  - split; [|done]. intros r Hr. by rewrite lookup_insert_ne.
Qed.

Lemma size_union_le (X Y : gset tid) : size (X ∪ Y) <= size X + size Y.
Proof.
  rewrite size_union_alt.
  assert (size (Y ∖ X) <= size Y) as Hle
    by (apply subseteq_size, subseteq_difference_l; reflexivity).
  lia.
Qed.

Lemma size_union_eq_iff (X Y : gset tid) :
  size (X ∪ Y) = size X + size Y <-> (forall t, t ∈ X -> t ∈ Y -> False).
Proof.
  split.
  - intros Heq t HtX HtY. rewrite size_union_alt in Heq.
    assert (Y ∖ X ⊆ Y) as Hsub
      by (apply subseteq_difference_l; reflexivity).
    assert (size Y <= size (Y ∖ X)) as Hle by lia.
    pose proof (set_subseteq_size_eq _ _ Hsub Hle) as Hset.
    rewrite <- Hset in HtY. apply elem_of_difference in HtY as [_ Hn].
    by apply Hn.
  - intros Hdisj. apply size_union. set_solver.
Qed.

(** C5.  The size of a union is at most the sum of the sizes of the
    operands, and it is the sum exactly when no thread is a member of both;
    the union taken the other way round has the same members. *)
Theorem union_size_and_commutes (A B : ref) (X Y : gset tid) (w : world) :
  w_sets w !! A = Some X ->
  w_sets w !! B = Some Y ->
  exists C w1 n D w2 Z,
    ThreadSet.__or__ A (VThreadSet B) w = (Ret (VThreadSet C), w1)
    /\ ThreadSet.__len__ C w1 = (Ret (VInt (Z.of_nat n)), w1)
    /\ ThreadSet.__len__ A w1 = (Ret (VInt (Z.of_nat (size X))), w1)
    /\ ThreadSet.__len__ B w1 = (Ret (VInt (Z.of_nat (size Y))), w1)
    /\ n <= size X + size Y
    /\ (n = size X + size Y <-> (forall t, t ∈ X -> t ∈ Y -> False))
    /\ ThreadSet.__or__ B (VThreadSet A) w = (Ret (VThreadSet D), w2)
    /\ w_sets w1 !! C = Some Z
    /\ w_sets w2 !! D = Some Z.
Proof.
  intros HX HY. pose proof (fresh_set_unused w) as Hfresh.
  set (n := fresh (dom (w_sets w))) in *.
  assert (n <> A) by congruence. assert (n <> B) by congruence.
  exists n, (set_sets (<[n := X ∪ Y]> (w_sets w)) w), (size (X ∪ Y)),
         n, (set_sets (<[n := Y ∪ X]> (w_sets w)) w), (X ∪ Y).
  split; [by apply or_spec|].
  split; [apply len_spec; cbn; apply lookup_insert_eq|].
  split; [apply len_spec; cbn; by rewrite lookup_insert_ne|].
  split; [apply len_spec; cbn; by rewrite lookup_insert_ne|].
  split; [apply size_union_le|].
  split; [apply size_union_eq_iff|].
  split; [by apply or_spec|]. cbn.
  split; [apply lookup_insert_eq|].
  rewrite lookup_insert_eq. f_equal. apply union_comm_L.
Qed.

(** C7.  Membership does not count occurrences.  A thread that is given
    twice to the constructor is a member once: the set made from a list is
    the set made from the list without its repetitions, and its size is the
    number of distinct threads.  A union-update with a set whose members
    are all members already changes nothing, neither the members nor the
    size. *)
Theorem membership_is_idempotent
    (l : list tid) (t : tid) (self o : ref) (X Y : gset tid) (w : world) :
  t ∈ l ->
  w_sets w !! self = Some X ->
  w_sets w !! o = Some Y ->
  Y ⊆ X ->
  ThreadSet.new (t :: l) w = ThreadSet.new l w
  /\ ThreadSet.new (l ++ l) w = ThreadSet.new l w
  /\ (exists s w' Z,
        ThreadSet.new l w = (Ret (VThreadSet s), w')
        /\ w_sets w' !! s = Some Z
        /\ (forall u, u ∈ Z <-> u ∈ l)
        /\ ThreadSet.__len__ s w'
           = (Ret (VInt (Z.of_nat (length (remove_dups l)))), w'))
  /\ ThreadSet.__ior__ self (VThreadSet o) w = (Ret (VThreadSet self), w)
  /\ ThreadSet.__len__ self w = (Ret (VInt (Z.of_nat (size X))), w).
Proof.
  intros Ht HX HY Hsub. rewrite !new_spec.
  split.
  { do 3 f_equal. apply set_eq. intros u. set_solver. }
  split.
  { do 3 f_equal. apply set_eq. intros u. set_solver. }
  split.
  { eexists _, _, _. split; [reflexivity|]. cbn.
    split; [apply lookup_insert_eq|].
    split; [intros u; apply elem_of_list_to_set|].
    erewrite len_spec by (cbn; apply lookup_insert_eq).
    by rewrite size_list_to_set_dups. }
  split; [|by apply len_spec].
  rewrite (ior_spec self o X Y) by done.
  replace (X ∪ Y) with X by set_solver.
  by rewrite insert_id, set_sets_id.
Qed.

(** ** Thread sets: [is_alive] *)

Lemma is_alive_quiet t w :
  w_env w = [] ->
  is_Some (Thread.state t w) ->
  Thread.is_alive t w
  = (Ret (VBool (alive_now w t)), log (EIsAlive t (alive_now w t)) w).
Proof.
  intros He [s Hs]. unfold Thread.is_alive, bind, Thread.tick, alive_now.
  rewrite He, Hs. by destruct s.
Qed.

Lemma next_finished g G w :
  w_gens w !! g = Some G -> g_finished G = true ->
  Generator.next g w = (Raise StopIteration, w).
Proof. intros HG Hf. unfold Generator.next. by rewrite HG, Hf. Qed.

Lemma next_end g self X w :
  w_gens w !! g = Some (gen_at self (size X) [] false) ->
  w_sets w !! self = Some X ->
  Generator.next g w = (Raise StopIteration, Generator.close g w)
  /\ w_gens (Generator.close g w) !! g = Some (gen_at self (size X) [] true).
Proof.
  intros HG HX. unfold Generator.next. rewrite HG. cbn. rewrite HX.
  rewrite decide_True by done. split; [done|].
  unfold Generator.close; cbn. by rewrite lookup_alter_eq, HG.
Qed.

Lemma next_step g self X t rest w :
  w_gens w !! g = Some (gen_at self (size X) (t :: rest) false) ->
  w_sets w !! self = Some X ->
  is_Some (Thread.state t w) ->
  exists b w',
    Generator.next g w = (Ret (VBool b), w')
    /\ w_gens w' !! g = Some (gen_at self (size X) rest false)
    /\ w_sets w' = w_sets w
    /\ w_trace w' = w_trace w ++ [EIsAlive t b]
    /\ (forall u, evolves (Thread.state u w) (Thread.state u w'))
    /\ (w_env w = [] ->
        b = alive_now w t /\ w_env w' = [] /\ w_threads w' = w_threads w).
Proof.
  intros HG HX Ht. unfold Generator.next. rewrite HG. cbn. rewrite HX.
  rewrite decide_True by done.
  destruct (is_alive_spec t (Generator.advance g w) Ht)
    as (b & w' & E & Hobj & Htr & _ & Hev).
  rewrite E. exists b, w'. split; [done|].
  destruct Hobj as (Hs & _ & Hg).
  split.
  { rewrite Hg. unfold Generator.advance; cbn.
    by rewrite lookup_alter_eq, HG. }
  split; [done|]. split; [done|]. split; [done|].
  intros He. rewrite is_alive_quiet in E by done.
  injection E as Hb <-. by rewrite Hb.
Qed.

Lemma drain_S n g w :
  Generator.drain (S n) g w
  = match Generator.next g w with
    | (Ret v, w1) =>
        match Generator.drain n g w1 with
        | Some (Ret vs, w2) => Some (Ret (v :: vs), w2)
        | other => other
        end
    | (Raise StopIteration, w1) => Some (Ret [], w1)
    | (Raise e, w1) => Some (Raise e, w1)
    | (Hang, w1) => Some (Hang, w1)
    end.
Proof. reflexivity. Qed.

Lemma drain_all g self X rest w :
  w_gens w !! g = Some (gen_at self (size X) rest false) ->
  w_sets w !! self = Some X ->
  Forall (fun t => is_Some (Thread.state t w)) rest ->
  exists bs w',
    Generator.drain (S (length rest)) g w = Some (Ret (map VBool bs), w')
    /\ length bs = length rest
    /\ w_trace w' = w_trace w ++ zip_with EIsAlive rest bs
    /\ w_gens w' !! g = Some (gen_at self (size X) [] true)
    /\ (w_env w = [] -> bs = map (alive_now w) rest).
Proof.
  revert w. induction rest as [|t rest IH]; intros w HG HX Hall.
  - destruct (next_end g self X w HG HX) as [E Hg].
    exists [], (Generator.close g w). rewrite drain_S, E. cbn.
    by rewrite app_nil_r.
  - apply Forall_cons in Hall as [Ht Hall].
    destruct (next_step g self X t rest w HG HX Ht)
      as (b & w1 & E1 & Hg1 & Hs1 & Htr1 & Hev1 & Hq1).
    destruct (IH w1) as (bs & w2 & E2 & Hlen & Htr2 & Hg2 & Hq2).
    { done. }
    { by rewrite Hs1. }
    { eapply Forall_impl; [exact Hall|]. intros u Hu.
      by apply (evolves_is_Some _ _ (Hev1 u)). }
    exists (b :: bs), w2. cbn [length]. rewrite drain_S, E1, E2. cbn.
    split; [done|]. split; [by rewrite Hlen|].
    split; [by rewrite Htr2, Htr1, <- app_assoc|]. split; [done|].
    intros He. destruct (Hq1 He) as (-> & He1 & Hth). f_equal.
    rewrite (Hq2 He1). apply map_ext. intros u.
    unfold alive_now, Thread.state. by rewrite Hth.
Qed.

(** C8.  [ThreadSet.is_alive] makes a new generator and asks no member
    anything.  Consuming the generator, in whatever store this happens as
    long as the set has not been changed, ends and gives one boolean per
    member, in the iteration order of the set; the [is_alive] calls are
    made then, so with nothing else going on the booleans are the states of
    the threads at that time.  Consumed once more the generator gives
    nothing. *)
Theorem is_alive_is_lazy_and_single_use
    (self : ref) (X : gset tid) (w : world) :
  w_sets w !! self = Some X ->
  exists g w1,
    ThreadSet.is_alive self w = (Ret (VGen g), w1)
    /\ w_gens w !! g = None
    /\ w_trace w1 = w_trace w
    /\ w_threads w1 = w_threads w
    /\ w_env w1 = w_env w
    /\ forall w2,
         w_gens w2 !! g = w_gens w1 !! g ->
         w_sets w2 !! self = Some X ->
         Forall (fun t => is_Some (Thread.state t w2)) (elements X) ->
         exists bs w3,
           Generator.to_list g w2 = Some (Ret (map VBool bs), w3)
           /\ length bs = size X
           /\ w_trace w3 = w_trace w2 ++ zip_with EIsAlive (elements X) bs
           /\ (w_env w2 = [] -> bs = map (alive_now w2) (elements X))
           /\ Generator.to_list g w3 = Some (Ret [], w3).
Proof.
  intros HX. unfold ThreadSet.is_alive, bind, ThreadSet.attr_threads.
  rewrite HX. set (g := fresh (dom (w_gens w))).
  eexists g, _. split; [reflexivity|]. cbn.
  split; [apply not_elem_of_dom, is_fresh|]. do 3 (split; [done|]).
  intros w2 Hg HX2 Hall. rewrite lookup_insert_eq in Hg.
  destruct (drain_all _ self X (elements X) w2 Hg HX2 Hall)
    as (bs & w3 & E & Hlen & Htr & Hg3 & Hq).
  exists bs, w3. split.
  { unfold Generator.to_list, Generator.remaining.
    rewrite Hg. cbn [gen_at g_finished g_rest]. exact E. }
  split; [done|]. split; [done|]. split; [done|].
  unfold Generator.to_list, Generator.remaining. rewrite Hg3.
  change (Generator.drain 1 g w3 = Some (Ret [], w3)).
  by rewrite drain_S, (next_finished _ _ _ Hg3).
Qed.

(** ** The manager: entering the scope *)

(** C9.  [__enter__] does nothing and gives [None]: the name bound by
    [with ... as name] is [None] whatever the manager is, so the block of
    the statement runs as if it had been given [None], which is no manager.
    The manager itself has to be held under another name. *)
Theorem enter_returns_none
    (self : ref) (body : pyval -> M flow) (w : world) :
  ThreadManager.__enter__ self w = (Ret VNone, w)
  /\ with_ self body w = with_ self (fun _ => body VNone) w
  /\ (forall m, VNone <> VManager m).
Proof. repeat split; done. Qed.

(** ** The manager: factory calls *)

Lemma construct_spec args kw w :
  (exists e, Thread.construct args kw w = (Raise e, w))
  \/ (exists o,
        Thread.construct args kw w
        = (Ret (fresh (dom (w_threads w))),
           set_threads (<[fresh (dom (w_threads w)) := o]> (w_threads w)) w)
        /\ th_state o = NotStarted).
Proof.
  unfold Thread.construct. destruct (Thread.bind_args args kw) as [b|]; [|eauto].
  destruct (default VNone (Thread.assoc "group" b)); eauto.
Qed.

Lemma construct_call target args kwargs w :
  exists o,
    construct_of (ViaCall target args kwargs) w
    = (Ret (fresh (dom (w_threads w))),
       set_threads (<[fresh (dom (w_threads w)) := o]> (w_threads w)) w)
    /\ th_state o = NotStarted /\ th_target o = target.
Proof. eexists. split; [reflexivity|]. done. Qed.

Lemma construct_of_spec f w :
  (exists e, construct_of f w = (Raise e, w))
  \/ (exists o,
        construct_of f w
        = (Ret (fresh (dom (w_threads w))),
           set_threads (<[fresh (dom (w_threads w)) := o]> (w_threads w)) w)
        /\ th_state o = NotStarted).
Proof. destruct f; apply construct_spec. Qed.

Lemma run_factory_unfold self f :
  run_factory self f
  = (let! thread := construct_of f in
     ThreadManager.append self thread ;;; ret (VThread thread)).
Proof. by destruct f. Qed.

Lemma factory_is_two_steps self f w :
  let '(c1, w1) := caller_step self (Pending f) w in
  let '(c2, w2) := caller_step self c1 w1 in
  run_factory self f w = (outcome c2, w2).
Proof.
  rewrite run_factory_unfold. unfold caller_step, bind, ret.
  destruct (construct_of_spec f w) as [[e ->]|(o & -> & _)]; [done|].
  by destruct (ThreadManager.append self _ _) as [[v|e|] w2].
Qed.

Lemma omap_cons_option {A B} (f : A -> option B) a l :
  omap f (a :: l) = option_list (f a) ++ omap f l.
Proof. cbn. by destruct (f a). Qed.

Lemma omap_insert_perm {A B} (f : A -> option B) (cs : list A) i c c' :
  cs !! i = Some c ->
  exists rest,
    omap f cs ≡ₚ option_list (f c) ++ rest
    /\ omap f (<[i := c']> cs) ≡ₚ option_list (f c') ++ rest.
Proof.
  revert i. induction cs as [|a cs IH]; intros i Hi; [done|].
  destruct i as [|j].
  - injection Hi as ->. exists (omap f cs). cbn [insert list_insert].
    by rewrite !omap_cons_option.
  - destruct (IH j Hi) as (rest & H1 & H2).
    exists (option_list (f a) ++ rest).
    change (<[S j := c']> (a :: cs)) with (a :: <[j := c']> cs).
    rewrite !omap_cons_option, H1, H2. split; apply Permutation_app_swap_app.
Qed.

Lemma registry_inv_init self m w fs :
  w_mgrs w !! self = Some m ->
  registry_inv self m w (map Pending fs) w.
Proof.
  intros Hm. exists [].
  assert (omap returned_thread (map Pending fs) = []) as ->
    by (induction fs; done).
  assert (omap created_thread (map Pending fs) = []) as ->
    by (induction fs; done).
  rewrite app_nil_r. destruct m. repeat split; auto using NoDup_nil_2.
Qed.

Lemma registry_inv_step self m w0 cs w i c :
  registry_inv self m w0 cs w ->
  cs !! i = Some c ->
  registry_inv self m w0 (<[i := (caller_step self c w).1]> cs)
    (caller_step self c w).2.
Proof.
  intros (L & Hm & HL & Hnd & Hall & Hmono) Hi.
  destruct (omap_insert_perm created_thread cs i c (caller_step self c w).1 Hi)
    as (rc & Hc1 & Hc2).
  destruct (omap_insert_perm returned_thread cs i c (caller_step self c w).1 Hi)
    as (rr & Hr1 & Hr2).
  destruct c as [f|t|v|e]; cbn [caller_step] in *.
  - (* the thread object is made *)
    cbn in Hc1, Hr1.
    destruct (construct_of_spec f w) as [[e E]|(o & E & Ho)];
      rewrite E in Hc2, Hr2 |- *; cbn in Hc2, Hr2 |- *.
    + exists L. rewrite Hc2, Hr2, <- Hc1, <- Hr1. done.
    + set (t := fresh (dom (w_threads w))) in *.
      assert (w_threads w !! t = None) as Hfresh
        by apply not_elem_of_dom, is_fresh.
      exists L. split; [done|]. split; [by rewrite Hr2, <- Hr1|].
      rewrite Hc2, <- Hc1. rewrite <- Permutation_middle.
      cbn [w_threads set_threads].
      split; [|split].
      * apply NoDup_cons. split; [|done]. intros Hin.
        rewrite Forall_forall in Hall. destruct (Hall t Hin) as [_ [x Hx]].
        congruence.
      * constructor.
        -- split; [|by rewrite lookup_insert_eq].
           destruct (w_threads w0 !! t) eqn:H0; [|done].
           destruct (Hmono t) as [x Hx]; [eauto|congruence].
        -- eapply Forall_impl; [exact Hall|]. intros u [Hu0 Hu].
           split; [done|]. by apply lookup_insert_is_Some'; right.
      * intros u Hu. apply lookup_insert_is_Some'. right. by apply Hmono.
  - (* the thread is appended and the call returns *)
    cbn in Hc1, Hr1. unfold ThreadManager.append in Hc2, Hr2 |- *.
    rewrite Hm in Hc2, Hr2 |- *. cbn in Hc2, Hr2 |- *.
    exists (L ++ [t]). cbn [w_mgrs w_threads set_mgrs].
    rewrite lookup_insert_eq, <- app_assoc.
    split; [done|].
    split; [by rewrite Hr2, <- Hr1, HL, <- Permutation_cons_append|].
    assert ((L ++ [t]) ++ omap created_thread
              (<[i := Returned (VThread t)]> cs)
            ≡ₚ L ++ omap created_thread cs) as Hp.
    { rewrite Hc2, Hc1. cbn. by rewrite <- app_assoc. }
    split; [by rewrite Hp|]. split; [by rewrite Hp|done].
  - rewrite list_insert_id by done. exists L. done.
  - rewrite list_insert_id by done. exists L. done.
Qed.

Lemma registry_inv_run self m w0 sched cs w :
  registry_inv self m w0 cs w ->
  registry_inv self m w0 (run_schedule self sched cs w).1
    (run_schedule self sched cs w).2.
Proof.
  revert cs w. induction sched as [|i sched IH]; intros cs w Hinv; [done|].
  cbn [run_schedule]. destruct (cs !! i) as [c|] eqn:Hi; [|by apply IH].
  pose proof (registry_inv_step self m w0 cs w i c Hinv Hi) as Hstep.
  destruct (caller_step self c w) as [c' w']. by apply IH.
Qed.

(** C2.  A factory call that returns has made a thread object that did not
    exist before, has put it at the end of the registry, and returns that
    very thread; the [__call__] form always returns, [create_thread] can
    only fail in the construction of the thread, and then the registry is
    untouched.  Whatever the order in which the steps of any number of
    callers are taken, the registry is its content at the start followed,
    in some order, by the threads of the callers that have returned, each
    of them once. *)
Theorem factory_registers_each_thread_once
    (self : ref) (m : manager) (w : world) :
  w_mgrs w !! self = Some m ->
  (forall f,
     (exists t w',
        run_factory self f w = (Ret (VThread t), w')
        /\ w_threads w !! t = None
        /\ Thread.state t w' = Some NotStarted
        /\ w_mgrs w' !! self
           = Some {| _join_timeout := _join_timeout m;
                     _threads := _threads m ++ [t] |})
     \/ (exists e args kwargs,
           f = ViaCreate args kwargs
           /\ run_factory self f w = (Raise e, w)))
  /\ (forall fs sched,
        exists L,
          w_mgrs (run_schedule self sched (map Pending fs) w).2 !! self
            = Some {| _join_timeout := _join_timeout m;
                      _threads := _threads m ++ L |}
          /\ L ≡ₚ omap returned_thread
                    (run_schedule self sched (map Pending fs) w).1
          /\ NoDup L
          /\ Forall (fun t => w_threads w !! t = None) L
          /\ (NoDup (_threads m) ->
              Forall (fun t => is_Some (w_threads w !! t)) (_threads m) ->
              NoDup (_threads m ++ L)))
  /\ (forall f,
        exists c,
          run_schedule self [0; 0] [Pending f] w
          = ([c], (run_factory self f w).2)
          /\ outcome c = (run_factory self f w).1).
Proof.
  intros Hm. split; [|split].
  - intros f. rewrite run_factory_unfold. unfold bind.
    destruct (construct_of_spec f w) as [[e E]|(o & E & Ho)].
    + right. destruct f as [target args kwargs|args kwargs].
      * destruct (construct_call target args kwargs w) as (o & E' & _).
        congruence.
      * exists e, args, kwargs. by rewrite E.
    + left. rewrite E. unfold ThreadManager.append. cbn. rewrite Hm.
      eexists _, _. split; [reflexivity|]. cbn.
      split; [apply not_elem_of_dom, is_fresh|].
      split; [|apply lookup_insert_eq].
      unfold Thread.state; cbn. by rewrite lookup_insert_eq, <- Ho.
  - intros fs sched.
    destruct (registry_inv_run self m w sched (map Pending fs) w
                (registry_inv_init self m w fs Hm))
      as (L & Hreg & HL & Hnd & Hall & _).
    exists L. split; [done|]. split; [done|].
    apply NoDup_app in Hnd as (HndL & _ & _).
    apply Forall_app in Hall as [HallL _].
    split; [done|].
    split; [eapply Forall_impl; [exact HallL|]; by intros t [? _]|].
    intros Hnd0 Hex. apply NoDup_app. split; [done|]. split; [|done].
    intros t Ht HtL. rewrite Forall_forall in Hex, HallL.
    destruct (Hex t Ht) as [x Hx]. destruct (HallL t HtL) as [Hnone _].
    congruence.
  - intros f. pose proof (factory_is_two_steps self f w) as H2.
    cbn [run_schedule lookup list_lookup].
    destruct (caller_step self (Pending f) w) as [c1 w1].
    cbn [insert list_insert lookup list_lookup].
    destruct (caller_step self c1 w1) as [c2 w2].
    exists c2. rewrite H2. done.
Qed.

(** ** The registry holds thread objects *)

(** The condition under which leaving the scope was described is the one
    the manager's own operations set up and keep. *)

Lemma new_manager_valid tmo w :
  exists self w',
    ThreadManager.new tmo w = (Ret (VManager self), w')
    /\ w_mgrs w !! self = None
    /\ w_mgrs w' !! self = Some {| _join_timeout := tmo; _threads := [] |}
    /\ registry_valid self w'.
Proof.
  eexists _, _. split; [reflexivity|]. cbn.
  split; [apply not_elem_of_dom, is_fresh|].
  split; [apply lookup_insert_eq|].
  eexists. split; [apply lookup_insert_eq|]. constructor.
Qed.

Lemma factory_keeps_valid self fs sched w :
  registry_valid self w ->
  registry_valid self (run_schedule self sched (map Pending fs) w).2.
Proof.
  intros (m & Hm & Hall).
  destruct (registry_inv_run self m w sched (map Pending fs) w
              (registry_inv_init self m w fs Hm))
    as (L & Hreg & _ & _ & HallL & Hmono).
  eexists. split; [exact Hreg|]. cbn. apply Forall_app. split.
  - eapply Forall_impl; [exact Hall|]. intros t Ht.
    apply fmap_is_Some, Hmono. by apply fmap_is_Some in Ht.
  - apply Forall_app in HallL as [HallL _].
    eapply Forall_impl; [exact HallL|]. intros t [_ Ht].
    by apply fmap_is_Some.
Qed.

Lemma thread_call_keeps_valid self w w' :
  same_objects w w' ->
  (forall u, evolves (Thread.state u w) (Thread.state u w')) ->
  registry_valid self w ->
  registry_valid self w'.
Proof.
  intros (_ & Hmgr & _) Hev (m & Hm & Hall).
  exists m. rewrite Hmgr. split; [done|].
  eapply Forall_impl; [exact Hall|]. intros t Ht.
  by apply (evolves_is_Some _ _ (Hev t)).
Qed.

(** ** The statements at work on the store [demo] *)

(** A set that grows between the call of [is_alive] and the use of its
    result: the walk is refused. *)
Example list_after_union_update :
  let w1 := (ThreadSet.is_alive 1 demo).2 in
  let w2 := (ThreadSet.__ior__ 1 (VThreadSet 3) w1).2 in
  (ThreadSet.is_alive 1 demo).1 = Ret (VGen 1)
  /\ (ThreadSet.__ior__ 1 (VThreadSet 3) w1).1 = Ret (VThreadSet 1)
  /\ fst <$> Generator.to_list 1 w2 = Some (Raise RuntimeError).
Proof. vm_compute. repeat split. Qed.

(** Three threads made by a manager, two of them put in a set and run with
    [start_and_join]; the scope is then left. *)
Example scope_of_three :
  let w1 := (ThreadManager.new None empty_world).2 in
  let w2 := (ThreadManager.__call__ 1 (VFunc "reader") [VInt 0] [] w1).2 in
  let w3 := (ThreadManager.__call__ 1 (VFunc "reader") [VInt 1] [] w2).2 in
  let w4 :=
    (ThreadManager.create_thread 1 [] [("target", VFunc "writer")] w3).2 in
  let w5 := (ThreadSet.new [1; 2; 1]%positive w4).2 in
  let w6 := (ThreadSet.start_and_join 1 None w5).2 in
  let w7 := (ThreadManager.__exit__ 1 [VNone; VNone; VNone] w6).2 in
  (ThreadManager.new None empty_world).1 = Ret (VManager 1)
  /\ (ThreadManager.__call__ 1 (VFunc "reader") [VInt 1] [] w2).1
     = Ret (VThread 2)
  /\ (ThreadManager.create_thread 1 [] [("target", VFunc "writer")] w3).1
     = Ret (VThread 3)
  /\ (ThreadSet.new [1; 2; 1]%positive w4).1 = Ret (VThreadSet 1)
  /\ (ThreadSet.__len__ 1 w5).1 = Ret (VInt 2)
  /\ (ThreadSet.start_and_join 1 None w5).1 = Ret VNone
  /\ (ThreadManager.__exit__ 1 [VNone; VNone; VNone] w6).1 = Ret VNone
  /\ w_trace w7
     = [EStart 2 true; EStart 1 true;
        EJoin 2 None (Ret true); EJoin 1 None (Ret true);
        EIsAlive 1 false; EIsAlive 2 false; EIsAlive 3 false].
Proof. vm_compute. repeat split. Qed.

(** A thread constructor that is given what it does not take. *)
Example create_thread_rejected :
  ThreadManager.create_thread 1 [VInt 7] [] demo = (Raise AssertionError, demo)
  /\ ThreadManager.create_thread 1 [] [("colour", VInt 7)] demo
     = (Raise TypeError, demo).
Proof. split; reflexivity. Qed.

Lemma exit_joins_every_live_thread_witness :
  exists r evs w',
    ThreadManager.__exit__ 1 [VNone; VNone; VNone] demo = (r, w')
    /\ w_trace w' = w_trace demo ++ evs
    /\ exit_shape (Some (1 # 2)%Q) [1; 2; 3; 4]%positive r evs.
Proof.
  destruct (exit_joins_every_live_thread 1 demo_manager
              [VNone; VNone; VNone] demo)
    as (r & evs & w' & E & _ & Htr & Hsh & _).
  - reflexivity.
  - repeat constructor; by eexists.
  - by exists r, evs, w'.
Defined.

Lemma factory_registers_each_thread_once_witness :
  exists L,
    w_mgrs (run_schedule 1 [0; 1; 2; 1; 0; 2] (map Pending demo_calls) demo).2
      !! 1%positive
    = Some {| _join_timeout := Some (1 # 2)%Q;
              _threads := [1; 2; 3; 4]%positive ++ L |}
    /\ NoDup L.
Proof.
  destruct (factory_registers_each_thread_once 1 demo_manager demo)
    as (_ & Hrun & _).
  - reflexivity.
  - destruct (Hrun demo_calls [0; 1; 2; 1; 0; 2]) as (L & Hm & _ & Hnd & _).
    by exists L.
Defined.

Lemma set_join_returns_none_witness :
  exists r evs w',
    ThreadSet.join 3 (Some (1 # 2)%Q) demo = (r, w')
    /\ join_shape (Some (1 # 2)%Q) [3; 4]%positive r evs
    /\ (r = Ret VNone \/ (r = Hang /\ Some (1 # 2)%Q = None)).
Proof.
  destruct (set_join_returns_none 3 {[3%positive; 4%positive]}
              (Some (1 # 2)%Q) demo)
    as ((r & evs & w' & E & _ & Hsh & Hr) & _).
  - reflexivity.
  - constructor; [by left|]. constructor; [by right|]. constructor.
  - by exists r, evs, w'.
Defined.

Lemma union_checks_operand_witness :
  ThreadSet.__or__ 1 VNone demo = (Raise TypeError, demo)
  /\ ThreadSet.__ior__ 1 (VThread 3) demo = (Raise TypeError, demo)
  /\ exists n w' Z,
       ThreadSet.__or__ 1 (VThreadSet 3) demo = (Ret (VThreadSet n), w')
       /\ w_sets w' !! n = Some Z
       /\ (forall t, t ∈ Z <-> t ∈ ({[1; 2]} : gset tid) \/ t ∈ ({[3; 4]} : gset tid))%positive.
Proof.
  split; [|split].
  - apply (union_checks_operand 1 {[1%positive; 2%positive]} VNone demo);
      [reflexivity|done].
  - apply (union_checks_operand 1 {[1%positive; 2%positive]} (VThread 3) demo);
      [reflexivity|done].
  - destruct (union_checks_operand 1 {[1%positive; 2%positive]}
                (VThreadSet 3) demo) as (_ & Hset); [reflexivity|].
    destruct (Hset 3%positive {[3%positive; 4%positive]})
      as ((n & w' & Z & E & _ & HZ & Hmem & _) & _); [reflexivity..|].
    by exists n, w', Z.
Defined.

Lemma union_size_and_commutes_witness :
  exists C w1 n,
    ThreadSet.__or__ 2 (VThreadSet 3) demo = (Ret (VThreadSet C), w1)
    /\ ThreadSet.__len__ C w1 = (Ret (VInt (Z.of_nat n)), w1)
    /\ n <= 3 + 2.
Proof.
  destruct (union_size_and_commutes 2 3
              {[1%positive; 2%positive; 3%positive]}
              {[3%positive; 4%positive]} demo)
    as (C & w1 & n & _ & _ & _ & E & Hlen & _ & _ & Hle & _);
    [reflexivity..|].
  by exists C, w1, n.
Defined.

Lemma start_every_member_or_abort_witness :
  (exists w',
     ThreadSet.start 1 demo = (Ret VNone, w')
     /\ w_trace w' = [EStart 2 true; EStart 1 true])
  /\ (exists w',
        ThreadSet.start 4 demo = (Raise RuntimeError, w')
        /\ w_trace w' = [EStart 5 true; EStart 3 false]
        /\ Thread.state 6 w' = Some NotStarted).
Proof.
  split.
  - destruct (start_every_member_or_abort 1 {[1%positive; 2%positive]} demo)
      as ((w' & E & Htr & _) & _).
    + reflexivity.
    + by repeat constructor.
    + by exists w'.
  - destruct (start_every_member_or_abort 4
                {[5%positive; 3%positive; 6%positive]} demo)
      as (_ & Habort); [reflexivity|].
    destruct (Habort [5%positive] 3%positive [6%positive])
      as (w' & E & Htr & _ & Hrest).
    + reflexivity.
    + by repeat constructor.
    + by left.
    + exists w'. split; [done|]. split; [done|].
      apply Forall_cons in Hrest as [H6 _]. by apply H6.
Defined.

Lemma membership_is_idempotent_witness :
  ThreadSet.new [1; 1; 2]%positive demo = ThreadSet.new [1; 2]%positive demo
  /\ ThreadSet.__ior__ 2 (VThreadSet 1) demo = (Ret (VThreadSet 2), demo).
Proof.
  destruct (membership_is_idempotent [1; 2]%positive 1%positive 2 1
              {[1%positive; 2%positive; 3%positive]}
              {[1%positive; 2%positive]} demo)
    as (Hnew & _ & _ & Hior & _).
  - apply list_elem_of_here.
  - reflexivity.
  - reflexivity.
  - apply union_subseteq_l.
  - by split.
Defined.

Lemma is_alive_is_lazy_and_single_use_witness :
  exists g w1,
    ThreadSet.is_alive 3 demo = (Ret (VGen g), w1)
    /\ w_trace w1 = []
    /\ exists bs w3,
         Generator.to_list g w1 = Some (Ret (map VBool bs), w3)
         /\ bs = [true; false]
         /\ Generator.to_list g w3 = Some (Ret [], w3).
Proof.
  destruct (is_alive_is_lazy_and_single_use 3 {[3%positive; 4%positive]} demo)
    as (g & w1 & E & _ & Htr & Hth & Henv & Huse); [reflexivity|].
  exists g, w1. split; [done|]. split; [done|].
  destruct (Huse w1) as (bs & w3 & E3 & _ & _ & Hbs & Hagain).
  - reflexivity.
  - injection E as _ <-. reflexivity.
  - unfold Thread.state. rewrite Hth. repeat constructor; by eexists.
  - exists bs, w3. split; [done|]. split; [|done].
    rewrite Hbs by (by rewrite Henv). unfold alive_now, Thread.state.
    by rewrite Hth.
Defined.

Lemma ior_returns_self_witness :
  exists w',
    ThreadSet.__ior__ 1 (VThreadSet 3) demo = (Ret (VThreadSet 1), w')
    /\ w_sets w' !! 3%positive = Some {[3%positive; 4%positive]}.
Proof.
  destruct (ior_returns_self 1 3 {[1%positive; 2%positive]}
              {[3%positive; 4%positive]} demo)
    as (w' & E & _ & Ho & _); [reflexivity..|].
  by exists w'.
Defined.

(** C3 as it was stated does not hold: the join of the one member answers
    [True] in one run and [False] in the other, and [ThreadSet.join] gives
    [None] in both. *)
Lemma set_join_hides_outcome :
  (Thread.join (Some (1 # 2)%Q) 3 (waiting true)).1 = Ret (VBool true)
  /\ (Thread.join (Some (1 # 2)%Q) 3 (waiting false)).1 = Ret (VBool false)
  /\ w_sets (waiting true) !! 5%positive = Some {[3%positive]}
  /\ w_sets (waiting false) !! 5%positive = Some {[3%positive]}
  /\ (ThreadSet.join 5 (Some (1 # 2)%Q) (waiting true)).1 = Ret VNone
  /\ (ThreadSet.join 5 (Some (1 # 2)%Q) (waiting false)).1 = Ret VNone.
Proof. repeat split. Qed.

(** * Further properties of the module *)

(** ** More on calls on thread objects *)

Lemma evolves_finished o' : evolves (Some Finished) o' -> o' = Some Finished.
Proof. by intros [->|[? _]]. Qed.

Lemma evolves_not_running o o' :
  evolves o o' -> o <> Some Running -> o' <> Some Running.
Proof. intros [->|[-> ->]] Hn; done. Qed.

(** A join without timeout comes back only with the thread finished. *)
Lemma join_no_timeout t w s :
  Thread.state t w = Some s -> s <> NotStarted ->
  exists r w', Thread.join None t w = (r, w')
    /\ same_objects w w'
    /\ (forall u, evolves (Thread.state u w) (Thread.state u w'))
    /\ ((r = Ret (VBool true)
         /\ w_trace w' = w_trace w ++ [EJoin t None (Ret true)]
         /\ Thread.state t w' = Some Finished)
        \/ (r = Hang /\ w_trace w' = w_trace w ++ [EJoin t None Hang])).
Proof.
  intros Hs Hne.
  destruct (join_started None t w s Hs Hne)
    as (r & w' & E & Hobj & Hev & Hcase).
  exists r, w'. repeat (split; [done|]).
  destruct Hcase as [(b & -> & Htr & Hb)|(-> & _ & Htr)]; [|by right].
  left. destruct b.
  - split; [done|]. split; [done|]. by apply Hb.
  - exfalso. revert E. unfold Thread.join, bind.
    destruct (tick_spec w) as (d & w1 & -> & _ & _ & _).
    destruct (Thread.state t w1) as [[| |]|]; try done. by destruct d.
Qed.

(** A join of a finished thread answers [True] at once, whatever the
    timeout. *)
Lemma join_finished tmo t w :
  Thread.state t w = Some Finished ->
  exists w', Thread.join tmo t w = (Ret (VBool true), w')
    /\ same_objects w w'
    /\ (forall u, evolves (Thread.state u w) (Thread.state u w'))
    /\ w_trace w' = w_trace w ++ [EJoin t tmo (Ret true)].
Proof.
  intros Hs. unfold Thread.join, bind.
  destruct (tick_spec w) as (d & w1 & -> & Hobj & Htr & Hev).
  pose proof (Hev t) as He. rewrite Hs in He.
  rewrite (evolves_finished _ He).
  eexists. split; [reflexivity|]. split; [apply Hobj|].
  split; [intros u; rewrite state_log; apply Hev|]. cbn. by rewrite Htr.
Qed.

(** A join of a thread that was never started is refused. *)
Lemma join_not_started tmo t w :
  Thread.state t w = Some NotStarted ->
  exists w', Thread.join tmo t w = (Raise RuntimeError, w')
    /\ same_objects w w'
    /\ (forall u, evolves (Thread.state u w) (Thread.state u w'))
    /\ w_trace w' = w_trace w ++ [EJoin t tmo (Raise RuntimeError)].
Proof.
  intros Hs. unfold Thread.join, bind.
  destruct (tick_spec w) as (d & w1 & -> & Hobj & Htr & Hev).
  assert (Thread.state t w1 = Some NotStarted) as ->
    by (by apply (evolves_not_started _ _ (Hev t))).
  eexists. split; [reflexivity|]. split; [apply Hobj|].
  split; [intros u; rewrite state_log; apply Hev|]. cbn. by rewrite Htr.
Qed.

Lemma join_loop_finished tmo l w :
  Forall (fun t => Thread.state t w = Some Finished) l ->
  exists w',
    for_each (Thread.join tmo) l w = (Ret VNone, w')
    /\ same_objects w w'
    /\ w_trace w' = w_trace w ++ map (fun t => EJoin t tmo (Ret true)) l
    /\ (forall u, evolves (Thread.state u w) (Thread.state u w')).
Proof.
  revert w. induction l as [|t l IH]; intros w Hall.
  - exists w. cbn. rewrite app_nil_r.
    repeat split; auto using evolves_refl.
  - apply Forall_cons in Hall as [Ht Hall].
    destruct (join_finished tmo t w Ht) as (w1 & E1 & Hobj1 & Hev1 & Htr1).
    destruct (IH w1) as (w2 & E2 & Hobj2 & Htr2 & Hev2).
    { eapply Forall_impl; [exact Hall|]. intros u Hu.
      apply evolves_finished. rewrite <- Hu. apply Hev1. }
    exists w2. cbn [for_each]. unfold bind at 1. rewrite E1.
    split; [exact E2|]. split; [eauto using same_objects_trans|].
    split; [cbn; rewrite Htr2, Htr1, <- app_assoc; done|].
    intros u; eauto using evolves_trans.
Qed.

Lemma join_loop_no_timeout l w :
  Forall (fun t => started (Thread.state t w)) l ->
  exists r evs w',
    for_each (Thread.join None) l w = (r, w')
    /\ same_objects w w'
    /\ w_trace w' = w_trace w ++ evs
    /\ join_shape None l r evs
    /\ (forall u, evolves (Thread.state u w) (Thread.state u w'))
    /\ (r = Ret VNone ->
        Forall (fun t => Thread.state t w' = Some Finished) l).
Proof.
  revert w. induction l as [|t l IH]; intros w Hall.
  - exists (Ret VNone), [], w. cbn. rewrite app_nil_r.
    repeat split; auto using evolves_refl, join_done.
  - apply Forall_cons in Hall as [Ht Hall].
    destruct (started_inv _ Ht) as (s & Hs & Hne).
    destruct (join_no_timeout t w s Hs Hne)
      as (r1 & w1 & E1 & Hobj1 & Hev1 & Hcase).
    cbn [for_each]. unfold bind at 1. rewrite E1.
    destruct Hcase as [(-> & Htr1 & Hfin)|(-> & Htr1)].
    + destruct (IH w1) as (r & evs & w2 & E2 & Hobj2 & Htr2 & Hsh & Hev2 & Hpost).
      { eapply Forall_impl; [exact Hall|]. intros u Hu.
        eapply evolves_started; [apply Hev1|done]. }
      exists r, (EJoin t None (Ret true) :: evs), w2.
      split; [exact E2|]. split; [eauto using same_objects_trans|].
      split; [rewrite Htr2, Htr1, <- !app_assoc; done|].
      split; [by constructor|].
      split; [intros u; eauto using evolves_trans|].
      intros Hr. constructor; [|by apply Hpost].
      apply evolves_finished. rewrite <- Hfin. apply Hev2.
    + exists Hang, [EJoin t None Hang], w1.
      repeat split; try apply Hobj1; try done. by constructor.
Qed.

(** ** Thread sets: [start_and_join], repeated [start], [join] *)

(** X1.  [start_and_join] on a set none of whose members was started:
    every member is started, then every member is joined with the timeout
    given, in the same order; the call gives [None] unless a join without
    timeout never comes back.  When it returns and no timeout was given,
    every member is finished. *)
Theorem start_and_join_runs_every_member
    (self : ref) (X : gset tid) (tmo : timeout) (w : world) :
  w_sets w !! self = Some X ->
  Forall (fun t => Thread.state t w = Some NotStarted) (elements X) ->
  exists r js w',
    ThreadSet.start_and_join self tmo w = (r, w')
    /\ w_trace w'
       = w_trace w ++ map (fun t => EStart t true) (elements X) ++ js
    /\ join_shape tmo (elements X) r js
    /\ (r = Ret VNone \/ (r = Hang /\ tmo = None))
    /\ (r = Ret VNone -> tmo = None ->
        Forall (fun t => Thread.state t w' = Some Finished) (elements X)).
Proof.
  intros HX Hall. unfold ThreadSet.start_and_join.
  unfold bind at 1. unfold ThreadSet.start, bind at 1.
  unfold ThreadSet.attr_threads at 1. rewrite HX.
  destruct (for_each_start_fresh _ w (NoDup_elements X) Hall)
    as (w1 & E1 & Hobj1 & Htr1 & Hst1 & _).
  rewrite E1. unfold bind at 1. unfold ThreadSet.join, bind at 1.
  unfold ThreadSet.attr_threads at 1.
  assert (w_sets w1 !! self = Some X) as -> by (by destruct Hobj1 as (-> & _)).
  destruct tmo as [d|].
  - destruct (join_loop (Some d) _ w1 Hst1)
      as (r & js & w2 & E2 & _ & Htr2 & Hsh & _).
    rewrite E2.
    destruct (join_shape_result _ _ _ _ Hsh) as [->|[-> ?]]; [|done].
    exists (Ret VNone), js, w2. unfold ret.
    split; [done|]. split; [by rewrite Htr2, Htr1, <- app_assoc|].
    split; [done|]. split; [by left|]. by intros _ [=].
  - destruct (join_loop_no_timeout _ w1 Hst1)
      as (r & js & w2 & E2 & _ & Htr2 & Hsh & _ & Hpost).
    rewrite E2.
    destruct (join_shape_result _ _ _ _ Hsh) as [->|[-> _]].
    + exists (Ret VNone), js, w2. unfold ret.
      split; [done|]. split; [by rewrite Htr2, Htr1, <- app_assoc|].
      split; [done|]. split; [by left|]. intros _ _. by apply Hpost.
    + exists Hang, js, w2.
      split; [done|]. split; [by rewrite Htr2, Htr1, <- app_assoc|].
      split; [done|]. split; [by right|]. by intros [=].
Qed.

Lemma for_each_start_abort l1 t l2 w :
  NoDup (l1 ++ t :: l2) ->
  Forall (fun u => Thread.state u w = Some NotStarted) l1 ->
  started (Thread.state t w) ->
  exists w',
    for_each Thread.start (l1 ++ t :: l2) w = (Raise RuntimeError, w')
    /\ w_trace w'
       = w_trace w ++ map (fun u => EStart u true) l1 ++ [EStart t false]
    /\ Forall (fun u => Thread.state u w = Some NotStarted ->
                        Thread.state u w' = Some NotStarted) l2.
Proof.
  intros Hnd Hl1 Ht.
  apply NoDup_app in Hnd as (Hnd1 & Hdisj & Hnd2).
  destruct (for_each_start_fresh _ w Hnd1 Hl1)
    as (w1 & E1 & _ & Htr1 & _ & Hev1).
  assert (t ∉ l1) as Htl1
    by (intros Hin; apply (Hdisj t Hin), list_elem_of_here).
  destruct (started_inv _ (evolves_started _ _ (Hev1 t Htl1) Ht))
    as (s & Hs & Hsne).
  destruct (start_twice t w1 s Hs Hsne) as (w2 & E2 & _ & Htr2 & Hev2).
  exists w2. rewrite for_each_app. unfold bind. rewrite E1. cbn.
  unfold bind. rewrite E2. split; [done|].
  split; [rewrite Htr2, Htr1, <- app_assoc; done|].
  apply Forall_forall. intros u Hu Hns.
  assert (u ∉ l1) as Hul1
    by (intros Hin; apply (Hdisj u Hin); by apply list_elem_of_further).
  apply (evolves_not_started _ _ (Hev2 u)).
  apply (evolves_not_started _ _ (Hev1 u Hul1)). done.
Qed.

(** X2.  [start_and_join] on a set with a member that was started before:
    the [RuntimeError] of that member's [start] ends the call, and no
    member is joined. *)
Theorem start_and_join_aborts_before_join
    (self : ref) (X : gset tid) (tmo : timeout) (w : world)
    (l1 : list tid) (t : tid) (l2 : list tid) :
  w_sets w !! self = Some X ->
  elements X = l1 ++ t :: l2 ->
  Forall (fun u => Thread.state u w = Some NotStarted) l1 ->
  started (Thread.state t w) ->
  exists w',
    ThreadSet.start_and_join self tmo w = (Raise RuntimeError, w')
    /\ w_trace w'
       = w_trace w ++ map (fun u => EStart u true) l1 ++ [EStart t false]
    /\ Forall (fun u => Thread.state u w = Some NotStarted ->
                        Thread.state u w' = Some NotStarted) l2.
Proof.
  intros HX Hel Hl1 Ht. pose proof (NoDup_elements X) as Hnd.
  rewrite Hel in Hnd.
  destruct (for_each_start_abort l1 t l2 w Hnd Hl1 Ht)
    as (w' & E & Htr & Hrest).
  exists w'. unfold ThreadSet.start_and_join, bind at 1.
  unfold ThreadSet.start, bind at 1. unfold ThreadSet.attr_threads at 1.
  by rewrite HX, Hel, E.
Qed.

(** X3.  A set that was started cannot be started again: on a set that is
    not empty and whose members were all started, [start] raises the
    [RuntimeError] of the first member in the iteration order and starts
    nothing. *)
Theorem start_twice_is_refused
    (self : ref) (X : gset tid) (w : world) (t : tid) (l : list tid) :
  w_sets w !! self = Some X ->
  elements X = t :: l ->
  Forall (fun u => Thread.state u w = Some NotStarted) (elements X) ->
  exists w1 w2,
    ThreadSet.start self w = (Ret VNone, w1)
    /\ ThreadSet.start self w1 = (Raise RuntimeError, w2)
    /\ w_trace w2 = w_trace w1 ++ [EStart t false]
    /\ (forall u, evolves (Thread.state u w1) (Thread.state u w2)).
Proof.
  intros HX Hel Hall.
  unfold ThreadSet.start, bind, ThreadSet.attr_threads. rewrite HX.
  destruct (for_each_start_fresh _ w (NoDup_elements X) Hall)
    as (w1 & E1 & Hobj1 & _ & Hst1 & _).
  exists w1. rewrite E1.
  assert (w_sets w1 !! self = Some X) as -> by (by destruct Hobj1 as (-> & _)).
  rewrite Hel in Hst1 |- *. apply Forall_cons in Hst1 as [Ht _].
  destruct (started_inv _ Ht) as (s & Hs & Hne).
  destruct (start_twice t w1 s Hs Hne) as (w2 & E2 & _ & Htr2 & Hev2).
  exists w2. cbn [for_each]. unfold bind. by rewrite E2.
Qed.

(** X4.  [join] on a set with a member that was never started: the members
    before it in the iteration order are joined, then the [RuntimeError]
    of that member's [join] ends the call (unless a join without timeout
    of an earlier member never comes back); the members after it are not
    joined. *)
Theorem set_join_refuses_unstarted_member
    (self : ref) (X : gset tid) (tmo : timeout) (w : world)
    (l1 : list tid) (t : tid) (l2 : list tid) :
  w_sets w !! self = Some X ->
  elements X = l1 ++ t :: l2 ->
  Forall (fun u => started (Thread.state u w)) l1 ->
  Thread.state t w = Some NotStarted ->
  exists r evs w',
    ThreadSet.join self tmo w = (r, w')
    /\ w_trace w' = w_trace w ++ evs
    /\ ((r = Raise RuntimeError
         /\ exists js,
              join_shape tmo l1 (Ret VNone) js
              /\ evs = js ++ [EJoin t tmo (Raise RuntimeError)])
        \/ (r = Hang /\ tmo = None /\ join_shape tmo l1 Hang evs)).
Proof.
  intros HX Hel Hl1 Ht.
  unfold ThreadSet.join, bind, ThreadSet.attr_threads. rewrite HX, Hel.
  rewrite for_each_app. unfold bind.
  destruct (join_loop tmo l1 w Hl1)
    as (r & js & w1 & E1 & _ & Htr1 & Hsh & Hev1).
  rewrite E1.
  destruct (join_shape_result _ _ _ _ Hsh) as [->|[-> Hnone]].
  - assert (Thread.state t w1 = Some NotStarted) as Ht1
      by (by apply (evolves_not_started _ _ (Hev1 t))).
    destruct (join_not_started tmo t w1 Ht1) as (w2 & E2 & _ & _ & Htr2).
    exists (Raise RuntimeError), (js ++ [EJoin t tmo (Raise RuntimeError)]), w2.
    cbn [for_each]. unfold bind. rewrite E2.
    split; [done|]. split; [by rewrite Htr2, Htr1, <- app_assoc|].
    left. split; [done|]. by exists js.
  - exists Hang, js, w1. split; [done|]. split; [done|]. by right.
Qed.

(** X5.  Joining is repeatable: on a set whose members are all finished
    [join] makes one call per member, each answered [True], gives [None]
    whatever the timeout, and never blocks. *)
Theorem set_join_of_finished_members
    (self : ref) (X : gset tid) (tmo : timeout) (w : world) :
  w_sets w !! self = Some X ->
  Forall (fun t => Thread.state t w = Some Finished) (elements X) ->
  exists w',
    ThreadSet.join self tmo w = (Ret VNone, w')
    /\ w_trace w'
       = w_trace w ++ map (fun t => EJoin t tmo (Ret true)) (elements X)
    /\ Forall (fun t => Thread.state t w' = Some Finished) (elements X)
    /\ exists w'',
         ThreadSet.join self tmo w' = (Ret VNone, w'')
         /\ w_trace w''
            = w_trace w' ++ map (fun t => EJoin t tmo (Ret true)) (elements X).
Proof.
  intros HX Hall.
  unfold ThreadSet.join, bind, ThreadSet.attr_threads. rewrite HX.
  destruct (join_loop_finished tmo _ w Hall) as (w1 & E1 & Hobj1 & Htr1 & Hev1).
  assert (Forall (fun t => Thread.state t w1 = Some Finished) (elements X))
    as Hall1.
  { eapply Forall_impl; [exact Hall|]. intros u Hu.
    apply evolves_finished. rewrite <- Hu. apply Hev1. }
  exists w1. rewrite E1. split; [done|]. split; [done|]. split; [done|].
  assert (w_sets w1 !! self = Some X) as -> by (by destruct Hobj1 as (-> & _)).
  destruct (join_loop_finished tmo _ w1 Hall1) as (w2 & E2 & _ & Htr2 & _).
  exists w2. by rewrite E2.
Qed.

(** ** The manager: more on leaving the scope *)



(** X7.  Leaving the scope does not empty the registry and touches no
    thread set, manager or generator; the only change to a thread is that
    a running one may have finished. *)
Theorem exit_keeps_registry
    (self : ref) (m : manager) (args : list pyval) (w : world) :
  w_mgrs w !! self = Some m ->
  Forall (fun t => is_Some (Thread.state t w)) (_threads m) ->
  exists r w',
    ThreadManager.__exit__ self args w = (r, w')
    /\ w_mgrs w' = w_mgrs w
    /\ w_sets w' = w_sets w
    /\ w_gens w' = w_gens w
    /\ (forall u, evolves (Thread.state u w) (Thread.state u w')).
Proof.
  intros Hm Hall.
  destruct (exit_loop self m (_threads m) w Hm Hall)
    as (r & evs & w' & E & (Hs & Hmg & Hg) & _ & _ & Hev & _).
  exists r, w'. unfold ThreadManager.__exit__, bind.
  unfold ThreadManager.attr_threads at 1. rewrite Hm. by split.
Qed.

Lemma exit_loop_idle self l w :
  Forall (fun t => is_Some (Thread.state t w)
                   /\ Thread.state t w <> Some Running) l ->
  exists w',
    for_each
      (fun thread =>
         let! alive := Thread.is_alive thread in
         if truthy alive
         then let! tmo := ThreadManager.attr_join_timeout self in
              Thread.join tmo thread
         else ret VNone) l w = (Ret VNone, w')
    /\ w_trace w' = w_trace w ++ map (fun t => EIsAlive t false) l
    /\ (forall u, evolves (Thread.state u w) (Thread.state u w'))
    /\ same_objects w w'.
Proof.
  revert w. induction l as [|t l IH]; intros w Hall.
  - exists w. cbn. rewrite app_nil_r.
    auto using evolves_refl, same_objects_refl.
  - apply Forall_cons in Hall as [[Ht Hnr] Hall].
    destruct (is_alive_spec t w Ht) as (b & w1 & E1 & Hobj1 & Htr1 & Hb & Hev1).
    assert (b = false) as ->.
    { destruct b; [|done]. exfalso.
      apply (evolves_not_running _ _ (Hev1 t) Hnr). by apply Hb. }
    destruct (IH w1) as (w2 & E2 & Htr2 & Hev2 & Hobj2).
    { eapply Forall_impl; [exact Hall|]. intros u [Hu Hnu]. split.
      - by apply (evolves_is_Some _ _ (Hev1 u)).
      - by apply (evolves_not_running _ _ (Hev1 u)). }
    exists w2. cbn [for_each]. unfold bind at 1. unfold bind at 1.
    rewrite E1. cbn [truthy]. unfold ret at 1.
    split; [exact E2|].
    split; [cbn; rewrite Htr2, Htr1, <- app_assoc; done|].
    split; [intros u; eauto using evolves_trans|].
    eauto using same_objects_trans.
Qed.

(** X8.  When no thread of the registry is running (each is finished or
    was never started), [__exit__] only asks every thread whether it is
    alive: it joins nothing, cannot block and gives [None], whatever the
    timeout of the manager. *)
Theorem exit_with_nothing_running
    (self : ref) (m : manager) (args : list pyval) (w : world) :
  w_mgrs w !! self = Some m ->
  Forall (fun t => is_Some (Thread.state t w)
                   /\ Thread.state t w <> Some Running) (_threads m) ->
  exists w',
    ThreadManager.__exit__ self args w = (Ret VNone, w')
    /\ w_trace w' = w_trace w ++ map (fun t => EIsAlive t false) (_threads m).
Proof.
  intros Hm Hall.
  destruct (exit_loop_idle self (_threads m) w Hall) as (w' & E & Htr & _ & _).
  exists w'. unfold ThreadManager.__exit__, bind.
  unfold ThreadManager.attr_threads at 1. rewrite Hm. by split.
Qed.

(** X9.  The [with] statement over a manager never changes how its block
    ended: the value of an early [return] and an exception of the block
    come out as they were once the threads are joined.  The one exception
    is a manager without timeout whose join never comes back. *)
Theorem with_keeps_block_outcome
    (self : ref) (m : manager) (body : pyval -> M flow)
    (w0 : world) (block : res flow) (w : world) :
  body VNone w0 = (block, w) ->
  w_mgrs w !! self = Some m ->
  Forall (fun t => is_Some (Thread.state t w)) (_threads m) ->
  exists r w',
    with_ self body w0 = (r, w')
    /\ (r = block \/ (r = Hang /\ _join_timeout m = None)).
Proof.
  intros Hb Hm Hall.
  assert (block = Hang \/ block <> Hang) as [->|Hne]
    by (destruct block; [right|right|left]; done).
  { exists Hang, w. unfold with_, ThreadManager.__enter__, ret.
    rewrite Hb. split; [done|by left]. }
  destruct (exit_loop self m (_threads m) w Hm Hall)
    as (r & evs & w' & E & _ & _ & Hsh & _).
  destruct (with_unfold self body w0 block w Hb Hne) as (a & Hwith).
  assert (ThreadManager.__exit__ self a w = (r, w')) as Hexit.
  { unfold ThreadManager.__exit__, bind.
    unfold ThreadManager.attr_threads at 1. by rewrite Hm. }
  rewrite Hexit in Hwith. cbn [fst snd] in Hwith.
  exists (leave block r), w'. split; [done|].
  destruct (exit_shape_result _ _ _ _ Hsh) as [->|[-> Hto]].
  - left. by destruct block.
  - right. split; [|done]. by destruct block.
Qed.

(** X10.  A manager that was just made has an empty registry: leaving its
    scope makes no call on any thread and changes nothing.  Making the
    manager touches no other manager and no thread. *)
Theorem new_manager_exits_at_once
    (join_timeout : timeout) (args : list pyval) (w : world) :
  exists self w1,
    ThreadManager.new join_timeout w = (Ret (VManager self), w1)
    /\ w_mgrs w !! self = None
    /\ w_mgrs w1 !! self
       = Some {| _join_timeout := join_timeout; _threads := [] |}
    /\ (forall r, r <> self -> w_mgrs w1 !! r = w_mgrs w !! r)
    /\ w_threads w1 = w_threads w
    /\ w_sets w1 = w_sets w
    /\ ThreadManager.__exit__ self args w1 = (Ret VNone, w1).
Proof.
  eexists _, _. split; [reflexivity|]. cbn.
  split; [apply not_elem_of_dom, is_fresh|].
  split; [apply lookup_insert_eq|].
  split; [intros r Hr; by rewrite lookup_insert_ne|].
  split; [done|]. split; [done|].
  unfold ThreadManager.__exit__, bind, ThreadManager.attr_threads. cbn.
  by rewrite lookup_insert_eq.
Qed.

(** ** Thread sets: more on unions *)

(** X11.  The set made by [__or__] shares nothing with its operands: a
    later union-update of the result leaves both operands as they were,
    and a later union-update of an operand leaves the result as it was. *)
Theorem union_result_is_independent
    (A B D : ref) (X Y Z : gset tid) (w : world) :
  w_sets w !! A = Some X ->
  w_sets w !! B = Some Y ->
  w_sets w !! D = Some Z ->
  exists C w1 w2 w3,
    ThreadSet.__or__ A (VThreadSet B) w = (Ret (VThreadSet C), w1)
    /\ ThreadSet.__ior__ C (VThreadSet D) w1 = (Ret (VThreadSet C), w2)
    /\ w_sets w2 !! A = Some X
    /\ w_sets w2 !! B = Some Y
    /\ w_sets w2 !! C = Some (X ∪ Y ∪ Z)
    /\ ThreadSet.__ior__ A (VThreadSet D) w1 = (Ret (VThreadSet A), w3)
    /\ w_sets w3 !! A = Some (X ∪ Z)
    /\ w_sets w3 !! C = Some (X ∪ Y).
Proof.
  intros HA HB HD. pose proof (fresh_set_unused w) as Hfresh.
  set (n := fresh (dom (w_sets w))) in *.
  assert (n <> A) by congruence. assert (n <> B) by congruence.
  assert (n <> D) by congruence.
  set (w1 := set_sets (<[n := X ∪ Y]> (w_sets w)) w).
  assert (w_sets w1 !! n = Some (X ∪ Y)) as Hn by apply lookup_insert_eq.
  assert (w_sets w1 !! A = Some X) as HA1
    by (cbn; by rewrite lookup_insert_ne).
  assert (w_sets w1 !! D = Some Z) as HD1
    by (cbn; by rewrite lookup_insert_ne).
  exists n, w1, (set_sets (<[n := X ∪ Y ∪ Z]> (w_sets w1)) w1),
         (set_sets (<[A := X ∪ Z]> (w_sets w1)) w1).
  split; [by apply or_spec|].
  split; [by apply ior_spec|].
  split; [cbn; by rewrite !lookup_insert_ne|].
  split; [cbn; by rewrite !lookup_insert_ne|].
  split; [cbn; by rewrite lookup_insert_eq|].
  split; [by apply ior_spec|].
  split; [cbn; by rewrite lookup_insert_eq|].
  cbn. rewrite lookup_insert_ne by done. apply lookup_insert_eq.
Qed.

(** X12.  Union is associative by membership: [(A | B) | C] and
    [A | (B | C)] have the same members. *)
Theorem union_is_associative
    (A B C : ref) (X Y Z : gset tid) (w : world) :
  w_sets w !! A = Some X ->
  w_sets w !! B = Some Y ->
  w_sets w !! C = Some Z ->
  exists P w1 L w2 Q w3 R w4 S,
    ThreadSet.__or__ A (VThreadSet B) w = (Ret (VThreadSet P), w1)
    /\ ThreadSet.__or__ P (VThreadSet C) w1 = (Ret (VThreadSet L), w2)
    /\ ThreadSet.__or__ B (VThreadSet C) w = (Ret (VThreadSet Q), w3)
    /\ ThreadSet.__or__ A (VThreadSet Q) w3 = (Ret (VThreadSet R), w4)
    /\ w_sets w2 !! L = Some S
    /\ w_sets w4 !! R = Some S
    /\ (forall t, t ∈ S <-> t ∈ X \/ t ∈ Y \/ t ∈ Z).
Proof.
  intros HA HB HC. pose proof (fresh_set_unused w) as Hfresh.
  set (n := fresh (dom (w_sets w))) in *.
  assert (n <> A) by congruence. assert (n <> B) by congruence.
  assert (n <> C) by congruence.
  set (w1 := set_sets (<[n := X ∪ Y]> (w_sets w)) w).
  set (w3 := set_sets (<[n := Y ∪ Z]> (w_sets w)) w).
  exists n, w1, (fresh (dom (w_sets w1))),
    (set_sets (<[fresh (dom (w_sets w1)) := X ∪ Y ∪ Z]> (w_sets w1)) w1),
    n, w3, (fresh (dom (w_sets w3))),
    (set_sets (<[fresh (dom (w_sets w3)) := X ∪ (Y ∪ Z)]> (w_sets w3)) w3),
    (X ∪ Y ∪ Z).
  split; [by apply or_spec|].
  split.
  { apply or_spec; cbn; [apply lookup_insert_eq|by rewrite lookup_insert_ne]. }
  split; [by apply or_spec|].
  split.
  { apply or_spec; cbn; [by rewrite lookup_insert_ne|apply lookup_insert_eq]. }
  split; [cbn; apply lookup_insert_eq|].
  split; [cbn; rewrite lookup_insert_eq; f_equal; apply (assoc_L (∪))|].
  intros t. rewrite !elem_of_union. tauto.
Qed.

(** X13.  The set made from no threads at all is empty and neutral: its
    size is 0, starting and joining it make no call and give [None], the
    union of a set with it has the members of that set, and a union-update
    with it changes nothing. *)
Theorem empty_set_is_neutral
    (A : ref) (X : gset tid) (tmo : timeout) (w : world) :
  w_sets w !! A = Some X ->
  exists E w1 C w2,
    ThreadSet.new [] w = (Ret (VThreadSet E), w1)
    /\ ThreadSet.__len__ E w1 = (Ret (VInt 0), w1)
    /\ ThreadSet.start E w1 = (Ret VNone, w1)
    /\ ThreadSet.join E tmo w1 = (Ret VNone, w1)
    /\ ThreadSet.start_and_join E tmo w1 = (Ret VNone, w1)
    /\ ThreadSet.__or__ A (VThreadSet E) w1 = (Ret (VThreadSet C), w2)
    /\ w_sets w2 !! C = Some X
    /\ ThreadSet.__ior__ A (VThreadSet E) w1 = (Ret (VThreadSet A), w1).
Proof.
  intros HA. pose proof (fresh_set_unused w) as Hfresh.
  set (n := fresh (dom (w_sets w))) in *.
  assert (n <> A) by congruence.
  set (w1 := set_sets (<[n := ∅]> (w_sets w)) w).
  assert (w_sets w1 !! n = Some ∅) as Hn by apply lookup_insert_eq.
  assert (w_sets w1 !! A = Some X) as HA1
    by (cbn; by rewrite lookup_insert_ne).
  exists n, w1, (fresh (dom (w_sets w1))),
    (set_sets (<[fresh (dom (w_sets w1)) := X ∪ ∅]> (w_sets w1)) w1).
  split; [done|].
  split; [by rewrite (len_spec n ∅)|].
  assert (ThreadSet.start n w1 = (Ret VNone, w1)) as Hstart.
  { unfold ThreadSet.start, bind, ThreadSet.attr_threads.
    by rewrite Hn, elements_empty. }
  assert (ThreadSet.join n tmo w1 = (Ret VNone, w1)) as Hjoin.
  { unfold ThreadSet.join, bind, ThreadSet.attr_threads.
    by rewrite Hn, elements_empty. }
  split; [done|]. split; [done|].
  split; [unfold ThreadSet.start_and_join, bind; by rewrite Hstart, Hjoin|].
  split; [by apply or_spec|].
  split; [cbn; rewrite lookup_insert_eq; f_equal; apply (right_id_L ∅ (∪))|].
  rewrite (ior_spec A n X ∅) by done.
  rewrite (right_id_L ∅ (∪)), insert_id by done. by rewrite set_sets_id.
Qed.

(** X14.  A union-update that adds a thread to a set spoils the result of
    an earlier [is_alive] on that set that was not yet consumed: consuming
    it raises [RuntimeError] before any thread is asked, and the generator
    is finished afterwards. *)
Theorem union_update_spoils_is_alive
    (self o : ref) (X Y : gset tid) (w : world) :
  w_sets w !! self = Some X ->
  w_sets w !! o = Some Y ->
  ~ Y ⊆ X ->
  exists g w1 w2 w3,
    ThreadSet.is_alive self w = (Ret (VGen g), w1)
    /\ ThreadSet.__ior__ self (VThreadSet o) w1 = (Ret (VThreadSet self), w2)
    /\ Generator.to_list g w2 = Some (Raise RuntimeError, w3)
    /\ w_trace w3 = w_trace w
    /\ w_threads w3 = w_threads w
    /\ Generator.to_list g w3 = Some (Ret [], w3).
Proof.
  intros HX HY Hsub.
  set (g := fresh (dom (w_gens w))).
  set (G := gen_at self (size X) (elements X) false).
  set (w1 := set_gens (<[g := G]> (w_gens w)) w).
  set (w2 := set_sets (<[self := X ∪ Y]> (w_sets w1)) w1).
  assert (size (X ∪ Y) <> size X) as Hsize.
  { rewrite size_union_alt. intros Heq.
    assert (size (Y ∖ X) = 0) as H0 by lia.
    apply size_empty_inv in H0. apply Hsub. intros t Ht.
    destruct (decide (t ∈ X)) as [|Hn]; [done|].
    exfalso. apply (not_elem_of_empty (C := gset tid) t), H0.
    by apply elem_of_difference. }
  assert (Generator.next g w2 = (Raise RuntimeError, Generator.close g w2))
    as Hnext.
  { unfold Generator.next. cbn. rewrite !lookup_insert_eq. cbn.
    by rewrite decide_False. }
  exists g, w1, w2, (Generator.close g w2).
  split.
  { unfold ThreadSet.is_alive, bind, ThreadSet.attr_threads. by rewrite HX. }
  split; [by apply ior_spec|].
  split.
  { unfold Generator.to_list. rewrite drain_S, Hnext. done. }
  split; [done|]. split; [done|].
  assert (w_gens (Generator.close g w2) !! g
          = Some (gen_at self (size X) (elements X) true)) as Hg.
  { cbn. by rewrite lookup_alter_eq, lookup_insert_eq. }
  unfold Generator.to_list, Generator.remaining. rewrite Hg.
  change (Generator.drain 1 g (Generator.close g w2)
          = Some (Ret [], Generator.close g w2)).
  by rewrite drain_S, (next_finished _ _ _ Hg).
Qed.

(** ** The manager: factory calls make threads and do nothing else *)

Lemma only_creates_refl self w : only_creates self w w.
Proof. repeat split; auto. Qed.

Lemma only_creates_trans self w1 w2 w3 :
  only_creates self w1 w2 -> only_creates self w2 w3 ->
  only_creates self w1 w3.
Proof.
  intros (Ht1 & Hs1 & Hg1 & He1 & Hm1 & Hk1 & Hn1)
         (Ht2 & Hs2 & Hg2 & He2 & Hm2 & Hk2 & Hn2).
  split; [congruence|]. split; [congruence|]. split; [congruence|].
  split; [congruence|].
  split; [intros r Hr; rewrite Hm2, Hm1; done|].
  split; [auto|].
  intros t o Ho. destruct (Hn2 t o Ho) as [Ho2|[Hnone Hst]].
  - by apply Hn1.
  - right. split; [|done].
    destruct (w_threads w1 !! t) as [o1|] eqn:H1; [|done].
    apply Hk1 in H1. congruence.
Qed.

Lemma only_creates_step self c w :
  only_creates self w (caller_step self c w).2.
Proof.
  destruct c as [f|t|v|e]; cbn [caller_step];
    try apply only_creates_refl.
  - destruct (construct_of_spec f w) as [[e ->]|(o & -> & Ho)];
      [apply only_creates_refl|].
    assert (w_threads w !! fresh (dom (w_threads w)) = None) as Hfresh
      by apply not_elem_of_dom, is_fresh.
    unfold only_creates. cbn. do 5 (split; [done|]). split.
    + intros t o' Ho'. rewrite lookup_insert_ne; [done|congruence].
    + intros t o' Ho'.
      destruct (decide (fresh (dom (w_threads w)) = t)) as [<-|Hne].
      * rewrite lookup_insert_eq in Ho'. injection Ho' as <-. by right.
      * rewrite lookup_insert_ne in Ho' by done. by left.
  - unfold ThreadManager.append.
    destruct (w_mgrs w !! self) as [m|]; [|apply only_creates_refl].
    unfold only_creates. cbn. do 4 (split; [done|]).
    split; [intros r Hr; by rewrite lookup_insert_ne|]. split; auto.
Qed.

Lemma only_creates_run self sched cs w :
  only_creates self w (run_schedule self sched cs w).2.
Proof.
  revert cs w. induction sched as [|i sched IH]; intros cs w;
    [apply only_creates_refl|].
  cbn [run_schedule]. destruct (cs !! i) as [c|]; [|apply IH].
  pose proof (only_creates_step self c w) as Hstep.
  destruct (caller_step self c w) as [c' w'].
  eapply only_creates_trans; [exact Hstep|apply IH].
Qed.

(** X15.  The factory forms only make threads: whatever callers run
    whatever factory calls in whatever order, no call is made on any thread
    object, no thread set, generator or other manager is touched, every
    thread object that existed is unchanged, and every thread object that
    is new is not started.  Starting the threads is left to the caller. *)
Theorem factory_calls_never_start_a_thread
    (self : ref) (fs : list factory) (sched : list nat) (w : world) :
  let w' := (run_schedule self sched (map Pending fs) w).2 in
  w_trace w' = w_trace w
  /\ w_sets w' = w_sets w
  /\ w_gens w' = w_gens w
  /\ (forall r, r <> self -> w_mgrs w' !! r = w_mgrs w !! r)
  /\ (forall t o, w_threads w !! t = Some o -> w_threads w' !! t = Some o)
  /\ (forall t, w_threads w !! t = None ->
                Thread.state t w' = None
                \/ Thread.state t w' = Some NotStarted)
  /\ (forall f,
        w_trace (run_factory self f w).2 = w_trace w
        /\ forall t o, w_threads w !! t = Some o ->
                       w_threads (run_factory self f w).2 !! t = Some o).
Proof.
  destruct (only_creates_run self sched (map Pending fs) w)
    as (Ht & Hs & Hg & _ & Hm & Hk & Hn).
  set (w' := (run_schedule self sched (map Pending fs) w).2) in *.
  cbn zeta. do 5 (split; [done|]). split.
  - intros t Hnone. unfold Thread.state.
    destruct (w_threads w' !! t) as [o|] eqn:Ho; cbn; [|by left].
    right. destruct (Hn t o Ho) as [?|[_ ->]]; [congruence|done].
  - intros f. pose proof (factory_is_two_steps self f w) as H2.
    pose proof (only_creates_step self (Pending f) w) as H1.
    destruct (caller_step self (Pending f) w) as [c1 w1].
    pose proof (only_creates_step self c1 w1) as H3.
    destruct (caller_step self c1 w1) as [c2 w2].
    rewrite H2. cbn [snd].
    destruct (only_creates_trans _ _ _ _ H1 H3) as (Ht' & _ & _ & _ & _ & Hk' & _).
    by split.
Qed.

(** ** The scope of [test_multithreaded_radix] *)





(** ** The scope of [test_racing_iter_append] *)


(** ** The helpers of [test_multithreaded_radix] *)

Lemma concat_slices (l : list string) (s m : nat) :
  concat (map (fun pos => take s (drop pos l))
              (map (fun k => k * s) (seq 0 m)))
  = take (m * s) l.
Proof.
  induction m as [|m IH]; [done|].
  rewrite seq_S, !map_app, concat_app, IH. cbn.
  rewrite app_nil_r, take_take_drop. f_equal. lia.
Qed.

Lemma union_list_to_set (ls : list (list string)) :
  ⋃ (map (fun l => (list_to_set l : gset string)) ls)
  = list_to_set (concat ls).
Proof.
  induction ls as [|l ls IH]; [done|].
  cbn. by rewrite list_to_set_app_L, IH.
Qed.

Lemma ceil_div_covers (n s : nat) : 0 < s -> n <= (n + s - 1) / s * s.
Proof.
  intros Hs. pose proof (Nat.div_mod_eq (n + s - 1) s) as Hd.
  pose proof (Nat.mod_upper_bound (n + s - 1) s ltac:(lia)) as Hm.
  nia.
Qed.

Lemma size_list_to_set_le (l : list string) :
  size (list_to_set l : gset string) <= length l.
Proof.
  induction l as [|x l IH]; cbn; [by rewrite size_empty|].
  rewrite size_union_alt, size_singleton.
  assert (size (list_to_set l ∖ {[x]} : gset string)
          <= size (list_to_set l : gset string)) as Hle
    by (apply subseteq_size, subseteq_difference_l; reflexivity).
  lia.
Qed.

(** X19.  With a positive size the chunks lose no address and invent none:
    their union is the set of the addresses; there are as many chunks as
    the length divided by the size, rounded up, and no chunk has more
    members than the size. *)
Theorem chunks_cover_the_addresses (addresses : list string) (size : Z) :
  (0 < size)%Z ->
  exists cs,
    chunks addresses size = Some cs
    /\ ⋃ cs = list_to_set addresses
    /\ length cs
       = (length addresses + Z.to_nat size - 1) / Z.to_nat size
    /\ Forall (fun c => base.size c <= Z.to_nat size) cs.
Proof.
  intros Hsize. unfold chunks, range_from_zero.
  rewrite decide_False by lia. rewrite decide_False by lia.
  set (s := Z.to_nat size). assert (0 < s) as Hs by lia.
  set (m := (length addresses + s - 1) / s).
  eexists. split; [reflexivity|]. split; [|split].
  - rewrite <- (map_map (fun pos => take s (drop pos addresses))
                  (fun l => (list_to_set l : gset string))).
    rewrite union_list_to_set, concat_slices.
    rewrite take_ge; [done|]. by apply ceil_div_covers.
  - by rewrite !length_map, length_seq.
  - apply Forall_forall. intros c Hc.
    apply list_elem_of_In, in_map_iff in Hc as (pos & <- & _).
    etrans; [apply size_list_to_set_le|]. rewrite length_take. lia.
Qed.

Lemma chunks_count (addresses : list string) (size : Z) :
  (0 < size)%Z ->
  exists cs,
    chunks addresses size = Some cs
    /\ length cs
       = (length addresses + Z.to_nat size - 1) / Z.to_nat size.
Proof.
  intros Hsize. unfold chunks, range_from_zero.
  rewrite decide_False by lia. rewrite decide_False by lia.
  eexists. split; [reflexivity|]. by rewrite !length_map, length_seq.
Qed.

(** X20.  One chunk per thread: cut with the size [len(addresses) // n],
    a list of at least [n] addresses gives at least [n] chunks, so that
    each of [n] threads finds the chunk of its number, and exactly [n]
    chunks when [n] divides the length.  With fewer than [n] addresses the
    size is 0 and the range refuses it. *)
Theorem chunks_one_per_thread (addresses : list string) (n : nat) :
  0 < n ->
  (n <= length addresses ->
   exists cs,
     chunks addresses (Z.of_nat (length addresses / n)) = Some cs
     /\ n <= length cs
     /\ (length addresses mod n = 0 -> length cs = n))
  /\ (length addresses < n ->
      chunks addresses (Z.of_nat (length addresses / n)) = None).
Proof.
  intros Hn. split.
  - intros Hlen. set (len := length addresses) in *.
    assert (0 < len / n) as Hs by (apply Nat.div_str_pos; lia).
    destruct (chunks_count addresses (Z.of_nat (len / n)))
      as (cs & E & Hcount); [lia|].
    fold len in Hcount. rewrite Nat2Z.id in Hcount.
    exists cs. split; [done|]. rewrite Hcount.
    assert (n * (len / n) <= len) as Hmul by apply Nat.Div0.mul_div_le.
    assert (len mod n = 0 -> len = n * (len / n)) as Hexact
      by apply Nat.Div0.div_exact.
    generalize dependent (len / n). intros s Hs _ _ Hmul Hexact.
    split.
    + etrans; [|apply (Nat.Div0.div_le_mono (n * s)); lia].
      rewrite Nat.div_mul; lia.
    + intros Hmod. rewrite (Hexact Hmod).
      replace (n * s + s - 1) with (n * s + (s - 1)) by lia.
      rewrite Nat.div_add_l by lia. rewrite Nat.div_small; lia.
  - intros Hlen. unfold chunks, range_from_zero.
    rewrite Nat.div_small by done. by rewrite decide_True.
Qed.

Lemma shifted_prefix_bounds (masklen network_int : Z) :
  (0 <= masklen <= 32)%Z ->
  (0 <= network_int <= 2 ^ masklen - 1)%Z ->
  (0 <= network_int * 2 ^ (32 - masklen)
   /\ network_int * 2 ^ (32 - masklen) + 2 ^ (32 - masklen) <= 2 ^ 32)%Z.
Proof.
  intros Hm Hn.
  assert (0 < 2 ^ (32 - masklen))%Z as Hpos by (apply Z.pow_pos_nonneg; lia).
  assert (2 ^ 32 = 2 ^ masklen * 2 ^ (32 - masklen))%Z as ->.
  { rewrite <- Z.pow_add_r by lia. f_equal. lia. }
  nia.
Qed.

Lemma random_network_spec (masklen network_int : Z) :
  (0 <= masklen <= 28)%Z ->
  (0 <= network_int <= 2 ^ masklen - 1)%Z ->
  random_network masklen network_int
  = Some {| network_address := (network_int * 2 ^ (32 - masklen))%Z;
            prefixlen := masklen |}.
Proof.
  intros Hm Hn. unfold random_network, IPv4Network_of.
  rewrite Z.shiftl_mul_pow2 by lia.
  destruct (shifted_prefix_bounds masklen network_int) as [H0 H1];
    [lia|done|].
  assert (0 < 2 ^ (32 - masklen))%Z as Hpos by (apply Z.pow_pos_nonneg; lia).
  rewrite decide_True; [done|].
  split; [lia|]. split; [lia|].
  rewrite Z.land_ones by lia. apply Z.mod_mul. lia.
Qed.

(** X21.  [random_network] always makes a network the library accepts:
    whatever is drawn, the shifted number is a 32-bit address with no bit
    set after the prefix; the prefix is the mask length drawn, and at
    least 4 bits are left for the hosts. *)
Theorem random_network_is_accepted (masklen network_int : Z) :
  (0 <= masklen <= 28)%Z ->
  (0 <= network_int <= 2 ^ masklen - 1)%Z ->
  exists network,
    random_network masklen network_int = Some network
    /\ prefixlen network = masklen
    /\ network_address network = (network_int * 2 ^ (32 - masklen))%Z
    /\ (4 <= host_bits network)%Z.
Proof.
  intros Hm Hn. eexists. split; [by apply random_network_spec|].
  unfold host_bits. cbn. lia.
Qed.

(** X22.  [random_address] stays inside its network: for a network made
    by [random_network] and whatever is drawn for the host bits, the sum is
    a 32-bit address the library accepts; its leading bits are those of
    the network and its host bits are the number drawn. *)
Theorem random_address_is_in_network (masklen network_int random_bits : Z) :
  (0 <= masklen <= 28)%Z ->
  (0 <= network_int <= 2 ^ masklen - 1)%Z ->
  (0 <= random_bits <= 2 ^ (32 - masklen) - 1)%Z ->
  exists network address,
    random_network masklen network_int = Some network
    /\ host_bits network = (32 - masklen)%Z
    /\ random_address network random_bits = Some address
    /\ (0 <= address < 2 ^ 32)%Z
    /\ Z.shiftr address (host_bits network) = network_int
    /\ Z.land address (Z.ones (host_bits network)) = random_bits.
Proof.
  intros Hm Hn Hd.
  destruct (shifted_prefix_bounds masklen network_int) as [H0 H1];
    [lia|done|].
  assert (0 < 2 ^ (32 - masklen))%Z as Hpos by (apply Z.pow_pos_nonneg; lia).
  eexists _, (network_int * 2 ^ (32 - masklen) + random_bits)%Z.
  split; [by apply random_network_spec|]. unfold host_bits. cbn.
  split; [done|].
  split.
  { unfold random_address, IPv4Address_of. cbn.
    rewrite decide_True; [done|lia]. }
  split; [lia|]. split.
  - rewrite Z.shiftr_div_pow2 by lia.
    rewrite Z.div_add_l by lia. rewrite Z.div_small; lia.
  - rewrite Z.land_ones by lia.
    rewrite Z.add_comm, Z.mod_add by lia. apply Z.mod_small. lia.
Qed.

(** ** The further statements at work *)

Lemma start_and_join_runs_every_member_witness :
  exists r js w',
    ThreadSet.start_and_join 1 None demo = (r, w')
    /\ w_trace w' = [EStart 2 true; EStart 1 true] ++ js
    /\ (r = Ret VNone ->
        Thread.state 1 w' = Some Finished /\ Thread.state 2 w' = Some Finished).
Proof.
  destruct (start_and_join_runs_every_member 1 {[1%positive; 2%positive]}
              None demo)
    as (r & js & w' & E & Htr & _ & _ & Hfin).
  - reflexivity.
  - by repeat constructor.
  - exists r, js, w'. split; [done|]. split; [done|]. intros Hr.
    specialize (Hfin Hr eq_refl).
    apply Forall_cons in Hfin as [H2 Hfin]. apply Forall_cons in Hfin as [H1 _].
    by split.
Defined.

Lemma start_and_join_aborts_before_join_witness :
  exists w',
    ThreadSet.start_and_join 4 (Some (1 # 2)%Q) demo = (Raise RuntimeError, w')
    /\ w_trace w' = [EStart 5 true; EStart 3 false].
Proof.
  destruct (start_and_join_aborts_before_join 4
              {[5%positive; 3%positive; 6%positive]} (Some (1 # 2)%Q) demo
              [5%positive] 3%positive [6%positive])
    as (w' & E & Htr & _).
  - reflexivity.
  - reflexivity.
  - by repeat constructor.
  - by left.
  - by exists w'.
Defined.

Lemma start_twice_is_refused_witness :
  exists w1 w2,
    ThreadSet.start 1 demo = (Ret VNone, w1)
    /\ ThreadSet.start 1 w1 = (Raise RuntimeError, w2)
    /\ w_trace w2 = w_trace w1 ++ [EStart 2 false].
Proof.
  destruct (start_twice_is_refused 1 {[1%positive; 2%positive]} demo
              2%positive [1%positive])
    as (w1 & w2 & E1 & E2 & Htr & _).
  - reflexivity.
  - reflexivity.
  - by repeat constructor.
  - by exists w1, w2.
Defined.

Lemma set_join_refuses_unstarted_member_witness :
  exists r evs w',
    ThreadSet.join 6 (Some (1 # 2)%Q) demo_more = (r, w')
    /\ w_trace w' = evs
    /\ r = Raise RuntimeError.
Proof.
  destruct (set_join_refuses_unstarted_member 6
              {[2%positive; 3%positive; 4%positive]} (Some (1 # 2)%Q)
              demo_more [3%positive; 4%positive] 2%positive [])
    as (r & evs & w' & E & Htr & Hcase).
  - reflexivity.
  - reflexivity.
  - constructor; [by left|]. constructor; [by right|]. constructor.
  - reflexivity.
  - exists r, evs, w'. split; [done|]. split; [done|].
    by destruct Hcase as [[-> _]|(_ & [=] & _)].
Defined.

Lemma set_join_of_finished_members_witness :
  exists w',
    ThreadSet.join 7 None demo_more = (Ret VNone, w')
    /\ w_trace w' = [EJoin 4 None (Ret true)].
Proof.
  destruct (set_join_of_finished_members 7 {[4%positive]} None demo_more)
    as (w' & E & Htr & _).
  - reflexivity.
  - by repeat constructor.
  - by exists w'.
Defined.


Lemma exit_keeps_registry_witness :
  exists r w',
    ThreadManager.__exit__ 1 [] demo = (r, w')
    /\ w_mgrs w' !! 1%positive = Some demo_manager.
Proof.
  destruct (exit_keeps_registry 1 demo_manager [] demo)
    as (r & w' & E & Hm & _).
  - reflexivity.
  - repeat constructor; by eexists.
  - exists r, w'. split; [done|]. by rewrite Hm.
Defined.

Lemma exit_with_nothing_running_witness :
  exists w',
    ThreadManager.__exit__ 3 [] demo_more = (Ret VNone, w')
    /\ w_trace w' = [EIsAlive 1 false; EIsAlive 4 false; EIsAlive 2 false].
Proof.
  destruct (exit_with_nothing_running 3
              {| _join_timeout := Some (1 # 2)%Q;
                 _threads := [1; 4; 2]%positive |} [] demo_more)
    as (w' & E & Htr).
  - reflexivity.
  - repeat (apply Forall_cons; split; [split; [by eexists|done]|]).
    apply Forall_nil_2.
  - by exists w'.
Defined.

Lemma with_keeps_block_outcome_witness :
  exists r w',
    with_ 1 (fun _ => raise TypeError) demo = (r, w')
    /\ (r = Raise TypeError \/ (r = Hang /\ Some (1 # 2)%Q = None)).
Proof.
  destruct (with_keeps_block_outcome 1 demo_manager
              (fun _ => raise TypeError) demo (Raise TypeError) demo)
    as (r & w' & E & Hr).
  - reflexivity.
  - reflexivity.
  - repeat constructor; by eexists.
  - by exists r, w'.
Defined.

Lemma union_result_is_independent_witness :
  exists C w1 w2,
    ThreadSet.__or__ 1 (VThreadSet 3) demo = (Ret (VThreadSet C), w1)
    /\ ThreadSet.__ior__ C (VThreadSet 2) w1 = (Ret (VThreadSet C), w2)
    /\ w_sets w2 !! 1%positive = Some {[1%positive; 2%positive]}.
Proof.
  destruct (union_result_is_independent 1 3 2
              {[1%positive; 2%positive]} {[3%positive; 4%positive]}
              {[1%positive; 2%positive; 3%positive]} demo)
    as (C & w1 & w2 & w3 & E1 & E2 & HA & _); [reflexivity..|].
  by exists C, w1, w2.
Defined.

Lemma union_is_associative_witness :
  exists P w1 L w2 S,
    ThreadSet.__or__ 1 (VThreadSet 3) demo = (Ret (VThreadSet P), w1)
    /\ ThreadSet.__or__ P (VThreadSet 5) w1 = (Ret (VThreadSet L), w2)
    /\ w_sets w2 !! L = Some S
    /\ 4%positive ∈ S.
Proof.
  destruct (union_is_associative 1 3 5
              {[1%positive; 2%positive]} {[3%positive; 4%positive]}
              {[3%positive]} demo)
    as (P & w1 & L & w2 & Q & w3 & R & w4 & S & E1 & E2 & _ & _ & HL & _ & Hmem);
    [reflexivity..|].
  exists P, w1, L, w2, S. split; [done|]. split; [done|]. split; [done|].
  apply Hmem. right. left. apply elem_of_union_r. by apply elem_of_singleton.
Defined.

Lemma empty_set_is_neutral_witness :
  exists E w1,
    ThreadSet.new [] demo = (Ret (VThreadSet E), w1)
    /\ ThreadSet.__len__ E w1 = (Ret (VInt 0), w1)
    /\ ThreadSet.__ior__ 1 (VThreadSet E) w1 = (Ret (VThreadSet 1), w1).
Proof.
  destruct (empty_set_is_neutral 1 {[1%positive; 2%positive]} None demo)
    as (E & w1 & C & w2 & E1 & Hlen & _ & _ & _ & _ & _ & Hior);
    [reflexivity|].
  by exists E, w1.
Defined.

Lemma union_update_spoils_is_alive_witness :
  exists g w1 w2 w3,
    ThreadSet.is_alive 1 demo = (Ret (VGen g), w1)
    /\ ThreadSet.__ior__ 1 (VThreadSet 3) w1 = (Ret (VThreadSet 1), w2)
    /\ Generator.to_list g w2 = Some (Raise RuntimeError, w3).
Proof.
  destruct (union_update_spoils_is_alive 1 3
              {[1%positive; 2%positive]} {[3%positive; 4%positive]} demo)
    as (g & w1 & w2 & w3 & E1 & E2 & E3 & _).
  - reflexivity.
  - reflexivity.
  - intros Hsub.
    assert (3%positive ∈ ({[1%positive; 2%positive]} : gset tid)) as Hin
      by (apply Hsub, elem_of_union_l; by apply elem_of_singleton).
    apply elem_of_union in Hin as [Hin|Hin];
      apply elem_of_singleton in Hin; discriminate.
  - by exists g, w1, w2, w3.
Defined.

Lemma factory_calls_never_start_a_thread_witness :
  w_trace (run_schedule 1 [0; 1; 2; 1; 0; 2] (map Pending demo_calls) demo).2
  = []
  /\ w_threads (run_schedule 1 [0; 1; 2; 1; 0; 2]
                  (map Pending demo_calls) demo).2 !! 3%positive
     = Some (worker Running).
Proof.
  destruct (factory_calls_never_start_a_thread 1 demo_calls
              [0; 1; 2; 1; 0; 2] demo)
    as (Htr & _ & _ & _ & Hkeep & _).
  split; [exact Htr|]. by apply Hkeep.
Defined.




Lemma chunks_cover_the_addresses_witness :
  exists cs,
    chunks ["10.0.0.1"; "10.0.0.2"; "10.0.0.3"] 2 = Some cs
    /\ length cs = 2.
Proof.
  destruct (chunks_cover_the_addresses
              ["10.0.0.1"; "10.0.0.2"; "10.0.0.3"] 2)
    as (cs & E & _ & Hlen & _); [lia|].
  by exists cs.
Defined.

Lemma chunks_one_per_thread_witness :
  exists cs,
    chunks ["10.0.0.1"; "10.0.0.2"; "10.0.0.3"; "10.0.0.4"]
           (Z.of_nat (4 / 2)) = Some cs
    /\ length cs = 2.
Proof.
  destruct (chunks_one_per_thread
              ["10.0.0.1"; "10.0.0.2"; "10.0.0.3"; "10.0.0.4"] 2)
    as [Hmany _]; [lia|].
  destruct Hmany as (cs & E & _ & Hexact); [cbn; lia|].
  exists cs. split; [done|]. by apply Hexact.
Defined.

Lemma random_network_is_accepted_witness :
  exists network,
    random_network 24 3 = Some network
    /\ network_address network = 768%Z.
Proof.
  destruct (random_network_is_accepted 24 3) as (network & E & _ & Ha & _);
    [lia|lia|].
  by exists network.
Defined.

Lemma random_address_is_in_network_witness :
  exists network address,
    random_network 24 3 = Some network
    /\ random_address network 7 = Some address
    /\ (0 <= address < 2 ^ 32)%Z.
Proof.
  destruct (random_address_is_in_network 24 3 7)
    as (network & address & E & _ & Ea & Hb & _); [lia|lia|lia|].
  by exists network, address.
Defined.
